(** * ThreadNews: the feed page of webmasterfaqs/news

  A shallow embedding of the stateful logic of the single-page client
  (vote bar, article mapper, feed fetcher, feed component) and the
  properties its specification states about it.

  The page is a React component tree.  What is embedded here:
  - [VoteBar]: the two click handlers and their [useState] cells;
  - [mapGNews]: the mapper from a raw article to a card;
  - [fetchGNews]: the fetcher, as a computation that either settles at
    once or awaits one network answer;
  - [NewsFeed]: the five [useState] cells, the two effects and the loads
    they start, each with its own [cancelled] flag.

  JavaScript values are modelled as the TypeScript annotations of the
  source give them: an optional field is an [option], [string | null] is
  an [option], a [number] that the code only uses as an integer is a [Z],
  and a [number] that may be [NaN] is a [Number].  A [throw] is the
  [Throw] case of [Completion]. *)

From Stdlib Require Import Ascii String.
From stdpp Require Import base option list strings pretty numbers gmap.

Local Open Scope Z_scope.

(** ** JavaScript values *)

Module Js.

(** An [Error] object: the constructor's name and the message. *)
Record Error := MkError { name : string; message : string }.

Definition ErrorOf (msg : string) : Error := MkError "Error" msg.
Definition TypeError (msg : string) : Error := MkError "TypeError" msg.

(** The outcome of evaluating an expression or a call. *)
Inductive Completion (A : Type) : Type :=
| Normal (a : A)
| Throw (e : Error).
Global Arguments Normal {A} a.
Global Arguments Throw {A} e.

Global Instance Completion_ret : MRet Completion := λ A a, Normal a.
Global Instance Completion_bind : MBind Completion := λ A B f c,
  match c with
  | Normal a => f a
  | Throw e => Throw e
  end.

Definition is_Normal {A} (c : Completion A) : bool :=
  match c with Normal _ => true | Throw _ => false end.

(** A [number] that is either an integer or [NaN].  The only numbers of
    the page that are not integers by construction are time values and
    what is computed from them; a time value is an integral number of
    milliseconds of magnitude at most 8.64e15, or [NaN]. *)
Inductive Number : Type :=
| NaN
| Num (z : Z).

Definition Number_sub (a b : Number) : Number :=
  match a, b with
  | Num x, Num y => Num (x - y)
  | _, _ => NaN
  end.

(** [Math.round(a / d)] for a positive integer [d]: the quotient rounded
    to the nearest integer, a tie going up.  The double division is
    monotone and the ties [k + 0.5] are doubles, so rounding the double
    quotient and rounding the exact quotient agree. *)
Definition Math_round_div (a : Number) (d : Z) : Number :=
  match a with
  | Num x => Num ((2 * x + d) / (2 * d))
  | NaN => NaN
  end.

(** [Math.max(a, b)]: [NaN] as soon as one argument is [NaN]. *)
Definition Math_max (a b : Number) : Number :=
  match a, b with
  | Num x, Num y => Num (Z.max x y)
  | _, _ => NaN
  end.

(** [String(n)] and the conversion of a template literal. *)
Definition Number_toString (n : Number) : string :=
  match n with
  | NaN => "NaN"
  | Num z => pretty z
  end.

(** Truthiness of a string: every string but the empty one. *)
Definition truthy (s : string) : bool := negb (String.eqb s "").

(** Truthiness of a [string | undefined] or [string | null]. *)
Definition truthy_opt (o : option string) : bool :=
  match o with
  | Some s => truthy s
  | None => false
  end.

(** [a || b] where both sides are [string | undefined]. *)
Definition or_undef (a b : option string) : option string :=
  if truthy_opt a then a else b.

(** [a || b] where [b] is a string. *)
Definition or_str (a : option string) (b : string) : string :=
  match a with
  | Some s => if truthy s then s else b
  | None => b
  end.

(** [hay.includes(needle)]. *)
Fixpoint includes (needle hay : string) : bool :=
  String.prefix needle hay ||
  match hay with
  | EmptyString => false
  | String _ rest => includes needle rest
  end.

End Js.
Import Js.

(** The parts of the browser the mapper calls.  [URL_hostname u] is
    [new URL(u).hostname], which throws a [TypeError] when [u] does not
    parse; [Date_parse s] is [new Date(s).getTime()], which is [NaN] when
    [s] is not a date. *)
Class Runtime := {
  URL_hostname : string → Completion string;
  Date_parse : string → Number;
}.

(** ** ENV HELPERS *)

Definition Env := gmap string string.

Definition DEFAULT_TOKEN : string := "398eff08263b1e6180096acb4ab68a01".

Definition GNEWS_TOKEN (env : Env) : string :=
  or_str (or_undef (env !! "NEXT_PUBLIC_GNEWS_TOKEN") (env !! "GNEWS_TOKEN"))
         DEFAULT_TOKEN.

Definition PAGE_SIZE : Z := 10.

(** ** VOTE BAR *)

Module VoteBar.

Inductive Dir := up_dir | down_dir.

(** The two state cells; [dir = None] is [null]. *)
Record State := MkState { votes : Z; dir : option Dir }.

(** [up], as created by a render that saw [rendered_dir]: the update of
    [votes] reads the direction of that render, the update of [dir] is
    applied to the cell. *)
Definition up (rendered_dir : option Dir) (s : State) : State :=
  {| votes := votes s +
              match rendered_dir with
              | Some up_dir => -1
              | Some down_dir => 2
              | None => 1
              end;
     dir := match dir s with
            | Some up_dir => None
            | _ => Some up_dir
            end |}.

Definition down (rendered_dir : option Dir) (s : State) : State :=
  {| votes := votes s +
              match rendered_dir with
              | Some down_dir => 1
              | Some up_dir => -2
              | None => -1
              end;
     dir := match dir s with
            | Some down_dir => None
            | _ => Some down_dir
            end |}.

(** A click is a discrete event: React renders again before the next
    one, so the handler that runs was created from the state it
    updates. *)
Definition click_up (s : State) : State := up (dir s) s.
Definition click_down (s : State) : State := down (dir s) s.

Definition init (initialVotes : Z) : State :=
  {| votes := initialVotes; dir := None |}.

End VoteBar.

(** ** DATA SHAPES & MAPPERS *)

Module NewsItem.

Record t := Mk {
  id : string;
  title : string;
  url : string;
  favicon : string;
  thumbnail : option string;
  comments : Z;
  votes : Z;
  age : string;
  thread : string;
}.

End NewsItem.

Module Source.

(** The type of [GNewsArticle.source]. *)
Record t := Mk { name : option string; url : option string }.

(** The default [{}] of the destructuring. *)
Definition empty : t := {| name := None; url := None |}.

End Source.

Module GNewsArticle.

Record t := Mk {
  title : option string;
  url : option string;
  image : option string;
  source : option Source.t;
  publishedAt : option string;
}.

(** The record [{}]: every field absent. *)
Definition empty : t :=
  {| title := None; url := None; image := None; source := None;
     publishedAt := None |}.

End GNewsArticle.

(** The two readings of the clock that one call of [mapGNews] makes: the
    [new Date()] of the default of [publishedAt], then [Date.now()]. *)
Record Clock := MkClock { default_now : Z; Date_now : Z }.

Definition FAVICON_PREFIX : string :=
  "https://www.google.com/s2/favicons?domain=".

Definition MS_PER_HOUR : Z := 3600000.

Section Mapper.
Context {rt : Runtime}.

(** The time value of [new Date(publishedAt)].  When the field is absent
    the default is [new Date().toISOString()], which [new Date(_)] reads
    back to the same time value (the ISO format keeps the milliseconds);
    that round trip is folded into the [None] case. *)
Definition published_time (clock : Clock) (publishedAt : option string)
  : Number :=
  match publishedAt with
  | None => Num (default_now clock)
  | Some s => Date_parse s
  end.

(** [url && url !== "#" ? new URL(url).hostname : ""] *)
Definition hostname_of (url : string) : Completion string :=
  if truthy url && negb (String.eqb url "#") then URL_hostname url
  else Normal "".

(** [source.url || (url && url !== "#" ? new URL(url).hostname : "")] *)
Definition domain_of (source : Source.t) (url : string) : Completion string :=
  match Source.url source with
  | Some s => if truthy s then Normal s else hostname_of url
  | None => hostname_of url
  end.

Definition ageHours_of (clock : Clock) (publishedAt : option string) : Number :=
  Math_max (Num 1)
    (Math_round_div
       (Number_sub (Num (Date_now clock)) (published_time clock publishedAt))
       MS_PER_HOUR).

Definition mapGNews (clock : Clock) (a : GNewsArticle.t) (idx : Z)
    (topic : string) : Completion NewsItem.t :=
  let title := default "Untitled" (GNewsArticle.title a) in
  let url := default "#" (GNewsArticle.url a) in
  let image := GNewsArticle.image a in
  let source := default Source.empty (GNewsArticle.source a) in
  domain ← domain_of source url;
  let favicon := if truthy domain then FAVICON_PREFIX +:+ domain else "" in
  let ageHours := ageHours_of clock (GNewsArticle.publishedAt a) in
  Normal {| NewsItem.id := topic +:+ "-" +:+ pretty idx;
            NewsItem.title := title;
            NewsItem.url := url;
            NewsItem.favicon := favicon;
            NewsItem.thumbnail := image;
            NewsItem.comments := 0;
            NewsItem.votes := 0;
            NewsItem.age := Number_toString ageHours +:+ "h ago";
            NewsItem.thread := topic |}.

End Mapper.

(** ** FETCH HELPERS *)

(** The request of the fetcher: the endpoint and the entries of its
    [URLSearchParams], in order. *)
Record Request := MkRequest {
  endpoint : string;
  params : list (string * string);
}.

Definition ENDPOINT : string := "https://gnews.io/api/v4/top-headlines".

(** [params.set(key, value)]: the first entry of that key is replaced and
    the later ones are dropped; a new key is appended. *)
Fixpoint params_set (key value : string) (ps : list (string * string))
  : list (string * string) :=
  match ps with
  | [] => [(key, value)]
  | (k, v) :: rest =>
      if String.eqb k key
      then (key, value) :: filter (λ kv, kv.1 ≠ key) rest
      else (k, v) :: params_set key value rest
  end.

(** The value of [json.articles] as the fetcher types it. *)
Inductive Articles : Type :=
| articles_undefined
| articles_null
| articles_array (arts : list GNewsArticle.t).

(** The value [res.json()] resolves to: [null], or a value with
    properties, seen through its [articles] property. *)
Inductive Json : Type :=
| json_null
| json_object (articles : Articles).

Module Response.

(** [json] is what [res.json()] settles to: a body that is not JSON
    rejects with the engine's [SyntaxError]. *)
Record t := Mk { status : Z; json : Completion Json }.

(** [res.ok]: the status is in the range 200-299. *)
Definition ok (res : t) : bool := (200 <=? status res) && (status res <=? 299).

End Response.

(** What [fetch] settles to: a response, or the rejection of a transport
    failure. *)
Definition FetchOutcome : Type := Completion Response.t.

(** What the page reads from outside while a load resumes: how its
    [fetch] settled, and the clock readings of [mapGNews] at each
    position of the page. *)
Record Resumption := MkResumption {
  outcome : FetchOutcome;
  clock_at : nat → Clock;
}.

(** An [async] function with at most one network [await]. *)
Inductive Async (A : Type) : Type :=
| Settled (c : Completion A)
| AwaitFetch (req : Request) (k : Resumption → Completion A).
Global Arguments Settled {A} c.
Global Arguments AwaitFetch {A} req k.

(** The completion of the [await] of an [async] call. *)
Definition resume {A} (a : Async A) (r : Resumption) : Completion A :=
  match a with
  | Settled c => c
  | AwaitFetch _ k => k r
  end.

Definition request_of {A} (a : Async A) : option Request :=
  match a with
  | Settled _ => None
  | AwaitFetch req _ => Some req
  end.

(** [json.articles]: reading a property of [null] throws. *)
Definition get_articles (j : Json) : Completion Articles :=
  match j with
  | json_null =>
      Throw (TypeError "Cannot read properties of null (reading 'articles')")
  | json_object a => Normal a
  end.

(** The body has no [articles] field to read: it is [null], or its
    [articles] property is [undefined] or [null]. *)
Definition lacks_articles (j : Json) : bool :=
  match j with
  | json_null => true
  | json_object articles_undefined | json_object articles_null => true
  | json_object (articles_array _) => false
  end.

(** [json.articles || []] *)
Definition articles_or_empty (a : Articles) : list GNewsArticle.t :=
  match a with
  | articles_array arts => arts
  | articles_undefined | articles_null => []
  end.

(** [arts.map((a, idx) => f(a, idx))] for a callback that may throw: the
    elements are visited in order from position [i], and the first throw
    ends the call. *)
Fixpoint array_map_from {A B} (f : A → nat → Completion B) (i : nat)
    (arts : list A) : Completion (list B) :=
  match arts with
  | [] => Normal []
  | a :: rest =>
      b ← f a i;
      bs ← array_map_from f (S i) rest;
      Normal (b :: bs)
  end.

Definition array_map {A B} (f : A → nat → Completion B) (arts : list A)
  : Completion (list B) :=
  array_map_from f 0%nat arts.

Definition MISSING_TOKEN : Error := ErrorOf "Missing GNEWS_TOKEN env var".

Definition NetworkError (status : Z) : Error :=
  ErrorOf ("Network " +:+ pretty status).

(** The identifier given to position [j] of page [page]. *)
Definition id_at (thread : option string) (page : Z) (j : nat) : string :=
  or_str thread "all" +:+ "-" +:+ pretty ((page - 1) * PAGE_SIZE + Z.of_nat j).

Section Fetcher.
Context {rt : Runtime}.

(** The module constant [GNEWS_TOKEN], as evaluated when the module was
    loaded. *)
Variable token : string.

Definition fetchGNews (page : Z) (thread : option string)
  : Async (list NewsItem.t) :=
  if negb (truthy token) then Settled (Throw MISSING_TOKEN)
  else
    let params := [("token", token); ("lang", "en");
                   ("max", pretty PAGE_SIZE); ("page", pretty page)] in
    let params :=
      match thread with
      | Some t => if truthy t then params_set "topic" t params else params
      | None => params
      end in
    AwaitFetch {| endpoint := ENDPOINT; params := params |} (λ r,
      res ← outcome r;
      if negb (Response.ok res) then Throw (NetworkError (Response.status res))
      else
        json ← Response.json res;
        articles ← get_articles json;
        let arts := articles_or_empty articles in
        array_map
          (λ a idx, mapGNews (clock_at r idx) a
                      ((page - 1) * PAGE_SIZE + Z.of_nat idx)
                      (or_str thread "all"))
          arts).

End Fetcher.

(** ** COMPONENTS - NEWS FEED *)

Module Feed.

(** The five [useState] cells of [NewsFeed]; [error = None] is [null]. *)
Record t := Mk {
  items : list NewsItem.t;
  page : Z;
  loading : bool;
  error : option string;
  hasMore : bool;
}.

(** The initial values of the cells. *)
Definition init : t :=
  {| items := []; page := 1; loading := false; error := None;
     hasMore := true |}.

Definition setItems (f : list NewsItem.t → list NewsItem.t) (s : t) : t :=
  {| items := f (items s); page := page s; loading := loading s;
     error := error s; hasMore := hasMore s |}.

Definition setPage (f : Z → Z) (s : t) : t :=
  {| items := items s; page := f (page s); loading := loading s;
     error := error s; hasMore := hasMore s |}.

Definition setLoading (b : bool) (s : t) : t :=
  {| items := items s; page := page s; loading := b;
     error := error s; hasMore := hasMore s |}.

Definition setError (e : option string) (s : t) : t :=
  {| items := items s; page := page s; loading := loading s;
     error := e; hasMore := hasMore s |}.

Definition setHasMore (b : bool) (s : t) : t :=
  {| items := items s; page := page s; loading := loading s;
     error := error s; hasMore := b |}.

(** The body of the first effect. *)
Definition reset (s : t) : t :=
  setHasMore true (setPage (λ _, 1) (setItems (λ _, []) s)).

(** [load] up to its [await]. *)
Definition load_begin (s : t) : t :=
  setError None (setLoading true s).

(** [load] from its [await] on.  [cancelled] is the flag of the effect
    run that called [load], read when the load resumes; [r] is what
    [fetchGNews] settled to.  The [finally] block runs in every case,
    also after the [return] of the [try] block. *)
Definition load_resume (cancelled : bool)
    (r : Completion (list NewsItem.t)) (s : t) : t :=
  let s :=
    match r with
    | Normal data =>
        if cancelled then s
        else
          let s := setItems (λ prev, prev ++ data) s in
          setHasMore (Z.of_nat (length data) =? PAGE_SIZE) s
    | Throw e =>
        if negb cancelled then setError (Some (message e)) s else s
    end in
  if negb cancelled then setLoading false s else s.

(** The condition under which the "Load more" button is rendered. *)
Definition load_more_visible (s : t) : bool :=
  negb (loading s) && hasMore s.

End Feed.

Module Load.

(** One call of [load]: the [page] and [thread] its effect run closed
    over, the [cancelled] variable of that run, and whether its [await]
    has completed. *)
Record t := Mk {
  page : Z;
  thread : option string;
  cancelled : bool;
  settled : bool;
}.

Definition start (page : Z) (thread : option string) : t :=
  {| page := page; thread := thread; cancelled := false; settled := false |}.

(** The cleanup of the effect run: [cancelled = true]. *)
Definition cancel (l : t) : t :=
  {| page := page l; thread := thread l; cancelled := true;
     settled := settled l |}.

Definition settle (l : t) : t :=
  {| page := page l; thread := thread l; cancelled := cancelled l;
     settled := true |}.

End Load.

Module NewsFeed.

(** A mounted [NewsFeed]: the [thread] prop of the last render, the
    cells, and every load started so far, oldest first.  The last load is
    the one of the latest run of the second effect. *)
Record t := Mk {
  thread : option string;
  cells : Feed.t;
  loads : list Load.t;
}.

(** What happens to a mounted feed. *)
Inductive Event : Type :=
| SetThread (thread : option string)
| ClickLoadMore
| Settle (i : nat) (r : Resumption).

(** The cleanup of the latest run of the second effect. *)
Definition cleanup (c : t) : t :=
  {| thread := thread c; cells := cells c;
     loads := alter Load.cancel (pred (length (loads c))) (loads c) |}.

(** A run of the second effect in a render that saw [page] and [thread]:
    a fresh [cancelled] variable and a call of [load]. *)
Definition run_load_effect (page : Z) (thread : option string) (c : t) : t :=
  {| thread := thread; cells := Feed.load_begin (cells c);
     loads := loads c ++ [Load.start page thread] |}.

(** A run of the first effect; its updates show in the next render. *)
Definition run_reset_effect (c : t) : t :=
  {| thread := thread c; cells := Feed.reset (cells c); loads := loads c |}.

(** The render that follows the updates of a commit: the second effect
    runs again when [page] is no longer the [page] its last run saw. *)
Definition rerender (seen_page : Z) (c : t) : t :=
  if decide (Feed.page (cells c) = seen_page) then c
  else run_load_effect (Feed.page (cells c)) (thread c) (cleanup c).

(** The first commit: both effects run. *)
Definition mount (thread : option string) : t :=
  let c := {| thread := thread; cells := Feed.init; loads := [] |} in
  let c := run_reset_effect c in
  let c := run_load_effect 1 thread c in
  rerender 1 c.

(** The commit of a render with another [thread]: the cleanup of the
    second effect, then both effects in order, with the [page] of that
    render; then the render of their updates.  The commit and that
    render are one step: React renders the updates of the effects before
    the network answers the request just issued. *)
Definition change_thread (thread : option string) (c : t) : t :=
  let seen_page := Feed.page (cells c) in
  let c := cleanup c in
  let c := run_reset_effect c in
  let c := run_load_effect seen_page thread c in
  rerender seen_page c.

(** The click handler of "Load more" and the render of its update. *)
Definition load_more (c : t) : t :=
  let seen_page := Feed.page (cells c) in
  let c := {| thread := thread c; cells := Feed.setPage (λ p, p + 1) (cells c);
              loads := loads c |} in
  rerender seen_page c.

Section Step.
Context {rt : Runtime}.
Variable env : Env.

(** The [await] of load [i] completes.  A promise settles once. *)
Definition settle (i : nat) (r : Resumption) (c : t) : t :=
  match loads c !! i with
  | None => c
  | Some l =>
      if Load.settled l then c
      else
        let result :=
          resume (fetchGNews (GNEWS_TOKEN env) (Load.page l) (Load.thread l))
                 r in
        {| thread := thread c;
           cells := Feed.load_resume (Load.cancelled l) result (cells c);
           loads := <[i := Load.settle l]> (loads c) |}
  end.

Definition step (c : t) (e : Event) : t :=
  match e with
  | SetThread thread' =>
      if decide (thread' = thread c) then c else change_thread thread' c
  | ClickLoadMore =>
      if Feed.load_more_visible (cells c) then load_more c else c
  | Settle i r => settle i r c
  end.

Definition run (c : t) (events : list Event) : t := foldl step c events.

End Step.

End NewsFeed.

(** ** Invariants of a mounted feed *)

Module Invariant.
Import NewsFeed.

(** Load [i] exists and its effect run has been cleaned up. *)
Definition cancelled_at (i : nat) (c : t) : Prop :=
  ∃ l, loads c !! i = Some l ∧ Load.cancelled l = true.

(** Every load but the latest is cancelled; the latest is not, and it is
    the load of [seen_page] and of the rendered thread. *)
Definition loads_seen (seen_page : Z) (c : t) : Prop :=
  ∃ older cur,
    loads c = older ++ [cur]
    ∧ Forall (λ l, Load.cancelled l = true) older
    ∧ Load.cancelled cur = false
    ∧ Load.page cur = seen_page
    ∧ Load.thread cur = thread c.

Definition loads_ok (c : t) : Prop := loads_seen (Feed.page (cells c)) c.

(** The identifiers of [items] are those of pairwise distinct indices
    below [bound], under the label of one thread. *)
Definition indices_below (bound : Z) (label : string)
    (items : list NewsItem.t) : Prop :=
  ∃ idxs : list Z,
    NewsItem.id <$> items = (λ k, label +:+ "-" +:+ pretty k) <$> idxs
    ∧ NoDup idxs
    ∧ Forall (λ k, k < bound) idxs.

(** The accumulated list holds indices of the pages before the current
    one, and of the current one once its load has settled. *)
Definition items_ok (c : t) : Prop :=
  1 ≤ Feed.page (cells c)
  ∧ ∃ older cur,
      loads c = older ++ [cur]
      ∧ indices_below
          ((if Load.settled cur then Feed.page (cells c)
            else Feed.page (cells c) - 1) * PAGE_SIZE)
          (or_str (thread c) "all")
          (Feed.items (cells c)).

(** The articles of the page that a resumption delivers. *)
Definition articles_of (r : Resumption) : list GNewsArticle.t :=
  match outcome r with
  | Normal res =>
      match Response.json res with
      | Normal (json_object articles) => articles_or_empty articles
      | _ => []
      end
  | Throw _ => []
  end.

(** The provider honours [max]: no page holds more than [PAGE_SIZE]
    articles. *)
Definition page_within_size (e : Event) : Prop :=
  match e with
  | Settle _ r => Z.of_nat (length (articles_of r)) ≤ PAGE_SIZE
  | SetThread _ | ClickLoadMore => True
  end.

End Invariant.

(** ** Clicks on a vote bar *)

Module VoteClicks.

Inductive Click := arrow_up | arrow_down.

Definition click (s : VoteBar.State) (k : Click) : VoteBar.State :=
  match k with
  | arrow_up => VoteBar.click_up s
  | arrow_down => VoteBar.click_down s
  end.

Definition run (s : VoteBar.State) (clicks : list Click) : VoteBar.State :=
  foldl click s clicks.

(** What the user's own vote adds to the count. *)
Definition own_vote (d : option VoteBar.Dir) : Z :=
  match d with
  | Some VoteBar.up_dir => 1
  | Some VoteBar.down_dir => -1
  | None => 0
  end.

End VoteClicks.

(** ** COMPONENTS - NEWS CARD *)

Module NewsCard.

(** The vote bar of a card: [<VoteBar initialVotes={item.votes} />]. *)
Definition voteBar (item : NewsItem.t) : VoteBar.State :=
  VoteBar.init (NewsItem.votes item).

(** [item.thumbnail && <img ... />] and [item.favicon && <img ... />] *)
Definition shows_thumbnail (item : NewsItem.t) : bool :=
  truthy_opt (NewsItem.thumbnail item).

Definition shows_favicon (item : NewsItem.t) : bool :=
  truthy (NewsItem.favicon item).

End NewsCard.

(** ** The requests of a feed *)

Module Requests.
Import NewsFeed.

Section WithToken.
Context {rt : Runtime}.
Variable env : Env.

(** The request that the call of [fetchGNews] of a load issues. *)
Definition of_load (l : Load.t) : option Request :=
  request_of (fetchGNews (GNEWS_TOKEN env) (Load.page l) (Load.thread l)).

End WithToken.

(** The event leaves the [thread] prop at [th]. *)
Definition keeps_thread (th : option string) (e : Event) : Prop :=
  match e with
  | SetThread t => t = th
  | ClickLoadMore | Settle _ _ => True
  end.

End Requests.

(** ** THREAD TABS *)

Definition GNEWS_TOPICS : list string :=
  ["world"; "nation"; "business"; "technology"; "entertainment"; "sports";
   "science"; "health"].

Module ThreadTabs.

Definition tabs : list string := "all" :: GNEWS_TOPICS.

(** [t === "all" ? null : t] *)
Definition thread_of (t : string) : option string :=
  if String.eqb t "all" then None else Some t.

(** The tab that is drawn as selected: [thread === (t === "all" ? null : t)] *)
Definition selected (thread : option string) (t : string) : bool :=
  bool_decide (thread = thread_of t).

End ThreadTabs.

(** ** THEME CONTEXT *)

Module Theme.

Inductive t := light | dark.

Global Instance t_eq_dec : EqDecision t.
Proof. solve_decision. Defined.

Definition name (th : t) : string :=
  match th with
  | light => "light"
  | dark => "dark"
  end.

(** [stored === "dark" || stored === "light"] *)
Definition of_stored (stored : option string) : option t :=
  match stored with
  | Some s =>
      if String.eqb s "dark" then Some dark
      else if String.eqb s "light" then Some light
      else None
  | None => None
  end.

(** The class list of the document element and the local storage.  The
    provider is modelled in the browser, where [window] and [document]
    exist and the guards of the two effects pass. *)
Record Browser := MkBrowser {
  classList : gset string;
  localStorage : gmap string string;
}.

(** The body of the second effect: [classList.toggle("dark", theme ===
    "dark")] and [localStorage.setItem("theme", theme)]. *)
Definition apply (th : t) (b : Browser) : Browser :=
  {| classList := if bool_decide (th = dark)
                  then classList b ∪ {["dark"]}
                  else classList b ∖ {["dark"]};
     localStorage := <["theme" := name th]> (localStorage b) |}.

(** The state cell of [ThemeProvider] and the browser it writes to. *)
Record Provider := MkProvider { theme : t; browser : Browser }.

(** [setTheme(th)] and the render that follows: the second effect runs
    again when [theme] has changed. *)
Definition setTheme (th : t) (p : Provider) : Provider :=
  if decide (th = theme p) then p
  else {| theme := th; browser := apply th (browser p) |}.

(** The first commit: the first effect reads the stored value, the
    second one applies the initial theme; then the update of the first
    effect is rendered. *)
Definition mount (b : Browser) : Provider :=
  let stored := localStorage b !! "theme" in
  let p := {| theme := light; browser := apply light b |} in
  match of_stored stored with
  | Some th => setTheme th p
  | None => p
  end.

(** The click handler of the button of the nav bar:
    [setTheme(theme === "dark" ? "light" : "dark")]. *)
Definition toggle (p : Provider) : Provider :=
  setTheme (match theme p with dark => light | light => dark end) p.

(** The browser shows the theme of the state cell. *)
Definition synced (p : Provider) : Prop :=
  localStorage (browser p) !! "theme" = Some (name (theme p))
  ∧ ("dark" ∈ classList (browser p) ↔ theme p = dark).

(** What the second effect leaves alone: the other keys of the storage
    and the other classes of the document. *)
Definition same_elsewhere (b b' : Browser) : Prop :=
  (∀ k, k ≠ "theme" → localStorage b' !! k = localStorage b !! k)
  ∧ (∀ cls, cls ≠ "dark" → cls ∈ classList b' ↔ cls ∈ classList b).

End Theme.

(** ** APP ROOT *)

Module App.

(** The feed, whose [thread] prop is the state cell of [App], and the
    theme provider. *)
Record t := Mk { feed : NewsFeed.t; provider : Theme.Provider }.

Inductive Event : Type :=
| ClickTab (tab : string)
| ClickLoadMore
| Settle (i : nat) (r : Resumption)
| ClickThemeToggle.

Definition mount (b : Theme.Browser) : t :=
  {| feed := NewsFeed.mount None; provider := Theme.mount b |}.

Section Step.
Context {rt : Runtime}.
Variable env : Env.

(** Only the tabs that are drawn can be clicked. *)
Definition step (a : t) (e : Event) : t :=
  match e with
  | ClickTab tab =>
      if bool_decide (tab ∈ ThreadTabs.tabs)
      then {| feed := NewsFeed.step env (feed a)
                        (NewsFeed.SetThread (ThreadTabs.thread_of tab));
              provider := provider a |}
      else a
  | ClickLoadMore =>
      {| feed := NewsFeed.step env (feed a) NewsFeed.ClickLoadMore;
         provider := provider a |}
  | Settle i r =>
      {| feed := NewsFeed.step env (feed a) (NewsFeed.Settle i r);
         provider := provider a |}
  | ClickThemeToggle =>
      {| feed := feed a; provider := Theme.toggle (provider a) |}
  end.

Definition run (a : t) (events : list Event) : t := foldl step a events.

End Step.

End App.

(** ** A fragment of the browser

    An executable [Runtime] on which the page can be run.  It knows the
    part of the browser that the examples below exercise and agrees with
    the browser there:
    - [URL]: an input that does not start with a scheme (letters, digits,
      [+], [-], [.] after a first letter, then a colon) does not parse
      without a base; [http://host] and [https://host], followed by
      nothing or by a path, a query or a fragment, has the hostname
      [host] when [host] is made of lowercase letters separated by dots;
    - [Date]: the strings [YYYY-MM-DDTHH:mm:ssZ] and
      [YYYY-MM-DDTHH:mm:ss.sssZ] of the date-time format, with their
      fields in range; a string without any digit is not a date.
    On every other input the fragment gives up ([TypeError], [NaN]). *)

Module Fragment.

Definition is_lower (a : ascii) : bool :=
  let n := nat_of_ascii a in (97 <=? n)%nat && (n <=? 122)%nat.

Definition is_digit (a : ascii) : bool :=
  let n := nat_of_ascii a in (48 <=? n)%nat && (n <=? 57)%nat.

Definition digit_value (a : ascii) : Z := Z.of_nat (nat_of_ascii a) - 48.

(** The value of a run of decimal digits, read after the value [acc]. *)
Fixpoint digits_from (acc : Z) (s : list ascii) : option Z :=
  match s with
  | [] => Some acc
  | a :: rest =>
      if is_digit a then digits_from (10 * acc + digit_value a) rest
      else None
  end.

Definition digits (s : list ascii) : option Z :=
  match s with
  | [] => None
  | _ => digits_from 0 s
  end.

(** The host of [host], [host/...], [host?...] or [host#...]: lowercase
    labels separated by single dots.  [fresh] says that a label has just
    started. *)
Fixpoint host_from (fresh : bool) (s : string) : option string :=
  match s with
  | EmptyString => if fresh then None else Some EmptyString
  | String a rest =>
      if is_lower a then String a <$> host_from false rest
      else if Ascii.eqb a "." then
        if fresh then None else String a <$> host_from true rest
      else if Ascii.eqb a "/" || Ascii.eqb a "?" || Ascii.eqb a "#" then
        if fresh then None else Some EmptyString
      else None
  end.

Definition strip_prefix (p s : string) : option string :=
  if String.prefix p s
  then Some (String.substring (String.length p)
               (String.length s - String.length p) s)
  else None.

Definition INVALID_URL : Error := TypeError "Invalid URL".

Definition URL_hostname (u : string) : Completion string :=
  let rest :=
    match strip_prefix "https://" u with
    | Some r => Some r
    | None => strip_prefix "http://" u
    end in
  match rest ≫= host_from true with
  | Some h => Normal h
  | None => Throw INVALID_URL
  end.

Definition is_leap (y : Z) : bool :=
  ((y mod 4 =? 0) && negb (y mod 100 =? 0)) || (y mod 400 =? 0).

Definition days_in_month (y m : Z) : Z :=
  if m =? 2 then (if is_leap y then 29 else 28)
  else if (m =? 4) || (m =? 6) || (m =? 9) || (m =? 11) then 30
  else 31.

(** The number of days from 1970-01-01 to the civil date [y]-[m]-[d]. *)
Definition days_from_civil (y m d : Z) : Z :=
  let y := if m <=? 2 then y - 1 else y in
  let era := y / 400 in
  let yoe := y - era * 400 in
  let mp := (m + 9) mod 12 in
  let doy := (153 * mp + 2) / 5 + d - 1 in
  let doe := yoe * 365 + yoe / 4 - yoe / 100 + doy in
  era * 146097 + doe - 719468.

Definition time_value (y m d h mi s ms : Z) : Number :=
  if (1 <=? m) && (m <=? 12) && (1 <=? d) && (d <=? days_in_month y m)
     && ((h <=? 23) && (mi <=? 59) && (s <=? 59)
         || (h =? 24) && (mi =? 0) && (s =? 0) && (ms =? 0))
  then Num (days_from_civil y m d * 86400000
            + h * 3600000 + mi * 60000 + s * 1000 + ms)
  else NaN.

Definition Date_parse (str : string) : Number :=
  match list_ascii_of_string str with
  | y1 :: y2 :: y3 :: y4 :: sep1 :: m1 :: m2 :: sep2 :: d1 :: d2 :: sepT
      :: h1 :: h2 :: sep3 :: mi1 :: mi2 :: sep4 :: s1 :: s2 :: tail =>
      let fraction :=
        match tail with
        | [z] => if Ascii.eqb z "Z" then Some 0 else None
        | [dot; f1; f2; f3; z] =>
            if Ascii.eqb dot "." && Ascii.eqb z "Z" then digits [f1; f2; f3]
            else None
        | _ => None
        end in
      if Ascii.eqb sep1 "-" && Ascii.eqb sep2 "-" && Ascii.eqb sepT "T"
         && Ascii.eqb sep3 ":" && Ascii.eqb sep4 ":"
      then
        match digits [y1; y2; y3; y4], digits [m1; m2], digits [d1; d2],
              digits [h1; h2], digits [mi1; mi2], digits [s1; s2], fraction
        with
        | Some y, Some m, Some d, Some h, Some mi, Some s, Some ms =>
            time_value y m d h mi s ms
        | _, _, _, _, _, _, _ => NaN
        end
      else NaN
  | _ => NaN
  end.

Definition runtime : Runtime := Build_Runtime URL_hostname Date_parse.

End Fragment.

(** ** Sample inputs *)

Module Sample.

(** 2024-05-01T13:00:00Z, and a millisecond later. *)
Definition clock : Clock :=
  {| default_now := 1714568400000; Date_now := 1714568400001 |}.

Definition article (url publishedAt : option string) : GNewsArticle.t :=
  {| GNewsArticle.title := Some "Headline";
     GNewsArticle.url := url;
     GNewsArticle.image := None;
     GNewsArticle.source := None;
     GNewsArticle.publishedAt := publishedAt |}.

Definition good_article : GNewsArticle.t :=
  article (Some "https://example.com/story") (Some "2024-05-01T12:00:00Z").

(** [url] is not a URL. *)
Definition malformed_article : GNewsArticle.t :=
  article (Some "not a url") (Some "2024-05-01T12:00:00Z").

(** [publishedAt] is not a date. *)
Definition undated_article : GNewsArticle.t :=
  article (Some "https://example.com/story") (Some "not a date").

(** A response with the given status and body. *)
Definition respond (status : Z) (json : Json) : Resumption :=
  {| outcome := Normal {| Response.status := status;
                          Response.json := Normal json |};
     clock_at := λ _, clock |}.

Definition page_of (arts : list GNewsArticle.t) : Resumption :=
  respond 200 (json_object (articles_array arts)).

(** The feed of "all", just mounted, in an empty environment. *)
Definition mounted : NewsFeed.t := NewsFeed.mount None.

(** A session: a full first page, "Load more", a second page of four
    articles. *)
Definition session : list NewsFeed.Event :=
  [ NewsFeed.Settle 0 (page_of (replicate 10 good_article));
    NewsFeed.ClickLoadMore;
    NewsFeed.Settle 1 (page_of (replicate 4 good_article)) ].

End Sample.

(** ** The flags of a mounted feed *)

Module FeedFlags.
Import NewsFeed.

(** [loading] tells whether the latest load is still awaited; while it
    is, no error is shown; and a feed with nothing more to load is not
    loading. *)
Definition flags_ok (c : t) : Prop :=
  ∃ older cur,
    loads c = older ++ [cur]
    ∧ Feed.loading (cells c) = negb (Load.settled cur)
    ∧ (Feed.loading (cells c) = true → Feed.error (cells c) = None)
    ∧ (Feed.hasMore (cells c) = false → Feed.loading (cells c) = false).

End FeedFlags.

(** ** Sample scenarios *)

Module Scenario.

(** An article whose [url] is not a URL but whose source has one. *)
Definition sourced_article : GNewsArticle.t :=
  {| GNewsArticle.title := Some "Headline";
     GNewsArticle.url := Some "not a url";
     GNewsArticle.image := Some "https://example.com/picture.jpg";
     GNewsArticle.source :=
       Some {| Source.name := Some "Example";
               Source.url := Some "https://example.com" |};
     GNewsArticle.publishedAt := Some "2024-05-01T12:00:00Z" |}.

(** An article with the placeholder for a [url]. *)
Definition placeholder_article : GNewsArticle.t :=
  Sample.article (Some "#") None.

(** The card of [Sample.good_article] at position 0 of "all". *)
Definition good_item : NewsItem.t :=
  {| NewsItem.id := "all-0";
     NewsItem.title := "Headline";
     NewsItem.url := "https://example.com/story";
     NewsItem.favicon :=
       "https://www.google.com/s2/favicons?domain=example.com";
     NewsItem.thumbnail := None;
     NewsItem.comments := 0;
     NewsItem.votes := 0;
     NewsItem.age := "1h ago";
     NewsItem.thread := "all" |}.

(** The network is down. *)
Definition offline : Resumption :=
  {| outcome := Throw (TypeError "Failed to fetch");
     clock_at := λ _, Sample.clock |}.

(** A browser that stored the dark theme, with a class and a key of
    other scripts. *)
Definition browser : Theme.Browser :=
  {| Theme.classList := {["no-js"]};
     Theme.localStorage := {["theme" := "dark"; "visits" := "3"]} |}.

(** A visit: a tab, a page, the theme, another tab. *)
Definition visit : list App.Event :=
  [ App.ClickTab "technology";
    App.Settle 1 (Sample.page_of (replicate 10 Sample.good_article));
    App.ClickThemeToggle;
    App.ClickLoadMore;
    App.ClickTab "sports" ].

End Scenario.

(** * Properties *)

(** ** JavaScript values *)

Lemma truthy_true_iff s : truthy s = true ↔ s ≠ "".
Proof.
  unfold truthy. destruct (String.eqb_spec s ""); simpl; naive_solver.
Qed.

Lemma truthy_false_iff s : truthy s = false ↔ s = "".
Proof.
  unfold truthy. destruct (String.eqb_spec s ""); simpl; naive_solver.
Qed.

Lemma or_str_truthy a b : truthy b = true → truthy (or_str a b) = true.
Proof.
  intros Hb. destruct a as [s|]; simpl; [|done].
  by destruct (truthy s) eqn:Hs.
Qed.

Lemma prefix_refl s : String.prefix s s = true.
Proof.
  induction s as [|a s IH]; simpl; [done|].
  destruct (ascii_dec a a); [done|congruence].
Qed.

Lemma includes_suffix pre s : includes s (pre +:+ s) = true.
Proof.
  induction pre as [|a pre IH].
  - change ("" +:+ s) with s.
    destruct s as [|b s]; [done|].
    cbn [includes]. by rewrite prefix_refl.
  - change (String a pre +:+ s) with (String a (pre +:+ s)).
    cbn [includes]. rewrite IH. apply orb_true_r.
Qed.

(** ** VOTE BAR *)

Section VoteBarProps.
Import VoteBar.

(** C2: the two clicks follow the six rows of the transition table, for
    every count; from (0, none), up gives (1, up), up twice gives
    (0, none), up then down gives (-1, down), down then up gives
    (1, up). *)
Theorem vote_clicks_follow_table :
  (∀ v, click_up (MkState v None) = MkState (v + 1) (Some up_dir)) ∧
  (∀ v, click_up (MkState v (Some up_dir)) = MkState (v - 1) None) ∧
  (∀ v, click_up (MkState v (Some down_dir)) = MkState (v + 2) (Some up_dir)) ∧
  (∀ v, click_down (MkState v None) = MkState (v - 1) (Some down_dir)) ∧
  (∀ v, click_down (MkState v (Some down_dir)) = MkState (v + 1) None) ∧
  (∀ v, click_down (MkState v (Some up_dir)) =
        MkState (v - 2) (Some down_dir)) ∧
  click_up (init 0) = MkState 1 (Some up_dir) ∧
  click_up (click_up (init 0)) = MkState 0 None ∧
  click_down (click_up (init 0)) = MkState (-1) (Some down_dir) ∧
  click_up (click_down (init 0)) = MkState 1 (Some up_dir).
Proof.
  repeat split; intros; unfold click_up, click_down, up, down; simpl;
    f_equal; lia.
Qed.

(** The vote is never up and down at once, and a click on the arrow of
    the current vote takes it back. *)
Lemma vote_click_twice s :
  click_up (click_up s) = s ∨ dir (click_up (click_up s)) = None.
Proof.
  destruct s as [v [[]|]]; unfold click_up, up; simpl;
    first [by right | left; f_equal; lia].
Qed.

End VoteBarProps.

(** ** ENV HELPERS and the configuration error *)

Lemma GNEWS_TOKEN_truthy env : truthy (GNEWS_TOKEN env) = true.
Proof. unfold GNEWS_TOKEN. by apply or_str_truthy. Qed.

Lemma GNEWS_TOKEN_resolution (env : Env) :
  GNEWS_TOKEN env =
  match env !! "NEXT_PUBLIC_GNEWS_TOKEN", env !! "GNEWS_TOKEN" with
  | Some a, Some b =>
      if truthy a then a else if truthy b then b else DEFAULT_TOKEN
  | Some a, None => if truthy a then a else DEFAULT_TOKEN
  | None, Some b => if truthy b then b else DEFAULT_TOKEN
  | None, None => DEFAULT_TOKEN
  end.
Proof.
  unfold GNEWS_TOKEN, or_undef.
  destruct (env !! "NEXT_PUBLIC_GNEWS_TOKEN") as [a|],
           (env !! "GNEWS_TOKEN") as [b|]; simpl; try done.
  - destruct (truthy a) eqn:Ha; simpl; [by rewrite Ha|done].
  - destruct (truthy a) eqn:Ha; simpl; [by rewrite Ha|done].
Qed.

Section FetcherProps.
Context {rt : Runtime}.

Lemma fetchGNews_no_token page thread :
  fetchGNews "" page thread = Settled (Throw MISSING_TOKEN).
Proof. reflexivity. Qed.

Lemma fetchGNews_with_token token page thread :
  token ≠ "" →
  ∃ req k, fetchGNews token page thread = AwaitFetch req k ∧
           (endpoint req = ENDPOINT) ∧ ("token", token) ∈ params req.
Proof.
  intros Ht%truthy_true_iff. unfold fetchGNews. rewrite Ht. simpl.
  eexists _, _. split; [reflexivity|]. split; [done|].
  destruct thread as [t|]; [destruct (truthy t)|]; simpl; set_solver.
Qed.

End FetcherProps.

(** C9: the fetcher settles with the missing-token error, having issued
    no request, exactly when the module constant holds no token, and it
    issues its request otherwise.  The constant is the first non-empty
    one of the two environment variables and else the built-in default;
    so for the page as loaded from any environment, the error fires
    exactly when that resolution yields no token - which the default
    excludes. *)
Theorem config_error_iff_no_token {rt : Runtime} :
  (∀ token page thread,
     fetchGNews token page thread = Settled (Throw MISSING_TOKEN)
     ↔ token = "") ∧
  (∀ token page thread,
     request_of (fetchGNews token page thread) = None ↔ token = "") ∧
  (∀ env : Env,
     GNEWS_TOKEN env =
     or_str (env !! "NEXT_PUBLIC_GNEWS_TOKEN")
       (or_str (env !! "GNEWS_TOKEN") DEFAULT_TOKEN)) ∧
  (∀ env : Env,
     env !! "NEXT_PUBLIC_GNEWS_TOKEN" = None →
     env !! "GNEWS_TOKEN" = None →
     GNEWS_TOKEN env = DEFAULT_TOKEN) ∧
  (∀ env page thread,
     fetchGNews (GNEWS_TOKEN env) page thread = Settled (Throw MISSING_TOKEN)
     ↔ GNEWS_TOKEN env = "") ∧
  (∀ env, GNEWS_TOKEN env ≠ "").
Proof.
  assert (Hiff : ∀ token page thread,
    fetchGNews token page thread = Settled (Throw MISSING_TOKEN)
    ↔ token = "").
  { intros token page thread. split; [|intros ->; apply fetchGNews_no_token].
    intros Hf. destruct (decide (token = "")) as [|Hne]; [done|].
    destruct (fetchGNews_with_token token page thread Hne)
      as (req & k & Heq & _). congruence. }
  split_and!.
  - apply Hiff.
  - intros token page thread. split; [|by intros ->].
    intros Hr. destruct (decide (token = "")) as [|Hne]; [done|].
    destruct (fetchGNews_with_token token page thread Hne)
      as (req & k & Heq & _). by rewrite Heq in Hr.
  - intros env. rewrite GNEWS_TOKEN_resolution.
    destruct (env !! "NEXT_PUBLIC_GNEWS_TOKEN") as [a|],
             (env !! "GNEWS_TOKEN") as [b|]; simpl; try done.
  - intros env Ha Hb. by rewrite GNEWS_TOKEN_resolution, Ha, Hb.
  - intros env page thread. apply Hiff.
  - intros env. apply truthy_true_iff, GNEWS_TOKEN_truthy.
Qed.

(** ** DATA SHAPES & MAPPERS *)

(** [Math_round_div] is the nearest integer to the quotient, a tie going
    up. *)
Lemma Math_round_div_nearest x d r :
  0 < d → Math_round_div (Num x) d = Num r →
  2 * x - d < 2 * d * r ≤ 2 * x + d.
Proof.
  intros Hd [= <-].
  pose proof (Z.mul_div_le (2 * x + d) (2 * d)) as Hle.
  pose proof (Z.mul_succ_div_gt (2 * x + d) (2 * d)) as Hgt.
  lia.
Qed.

Section MapperProps.
Context {rt : Runtime}.

(** The mapper returns as soon as the domain is resolved; every other
    field has a default. *)
Lemma mapGNews_returns clock a idx topic d :
  domain_of (default Source.empty (GNewsArticle.source a))
            (default "#" (GNewsArticle.url a)) = Normal d →
  ∃ item, mapGNews clock a idx topic = Normal item
          ∧ NewsItem.id item = topic +:+ "-" +:+ pretty idx
          ∧ NewsItem.thread item = topic
          ∧ NewsItem.favicon item
            = (if truthy d then FAVICON_PREFIX +:+ d else "")
          ∧ NewsItem.age item
            = Number_toString
                (ageHours_of clock (GNewsArticle.publishedAt a)) +:+ "h ago".
Proof.
  intros Hd. unfold mapGNews. rewrite Hd. simpl. eexists. by split_and!.
Qed.

(** The mapper throws what the resolution of the domain throws. *)
Lemma mapGNews_throws clock a idx topic e :
  domain_of (default Source.empty (GNewsArticle.source a))
            (default "#" (GNewsArticle.url a)) = Throw e →
  mapGNews clock a idx topic = Throw e.
Proof. intros Hd. unfold mapGNews. by rewrite Hd. Qed.

(** A record without fields maps to the card of defaults, aged one
    hour when the clock does not run backwards by half an hour between
    its two readings. *)
Lemma mapGNews_empty clock idx topic :
  - MS_PER_HOUR < 2 * (Date_now clock - default_now clock) < MS_PER_HOUR →
  mapGNews clock GNewsArticle.empty idx topic =
  Normal {| NewsItem.id := topic +:+ "-" +:+ pretty idx;
            NewsItem.title := "Untitled";
            NewsItem.url := "#";
            NewsItem.favicon := "";
            NewsItem.thumbnail := None;
            NewsItem.comments := 0;
            NewsItem.votes := 0;
            NewsItem.age := "1h ago";
            NewsItem.thread := topic |}.
Proof.
  intros Hclock. unfold mapGNews, ageHours_of. simpl.
  replace ((2 * (Date_now clock - default_now clock) + MS_PER_HOUR)
           / (2 * MS_PER_HOUR)) with 0; [done|].
  symmetry. apply Z.div_small. unfold MS_PER_HOUR in *. lia.
Qed.

(** With a time value for [publishedAt] - the field absent, in the past
    or in the future - the hour count is an integer that is at least 1. *)
Lemma ageHours_of_time clock publishedAt t :
  published_time clock publishedAt = Num t →
  ∃ h, ageHours_of clock publishedAt = Num h ∧ 1 ≤ h
       ∧ h = Z.max 1 ((2 * (Date_now clock - t) + MS_PER_HOUR)
                      / (2 * MS_PER_HOUR)).
Proof.
  intros Ht. unfold ageHours_of. rewrite Ht. simpl.
  eexists. split_and!; [done| lia |done].
Qed.

Lemma ageHours_of_absent clock :
  ∃ h, ageHours_of clock None = Num h ∧ 1 ≤ h.
Proof.
  destruct (ageHours_of_time clock None (default_now clock))
    as (h & ? & ? & _); eauto.
Qed.

(** C3: a record whose [url] is present, neither empty nor the
    placeholder, and rejected by the URL parser, and that has no
    [source.url], makes the mapper throw the parser's error: the
    extraction of the domain is not guarded. *)
Theorem mapGNews_throws_on_malformed_url clock a idx topic u e :
  GNewsArticle.url a = Some u →
  u ≠ "" → u ≠ "#" →
  GNewsArticle.source a ≫= Source.url = None →
  URL_hostname u = Throw e →
  mapGNews clock a idx topic = Throw e.
Proof.
  intros Hu Hne Hph Hsrc Hparse. apply mapGNews_throws.
  rewrite Hu. simpl.
  assert (Source.url (default Source.empty (GNewsArticle.source a)) = None)
    as Hnone.
  { destruct (GNewsArticle.source a) as [src|]; [exact Hsrc|done]. }
  unfold domain_of, hostname_of. rewrite Hnone.
  apply truthy_true_iff in Hne. rewrite Hne.
  destruct (String.eqb_spec u "#"); [done|]. exact Hparse.
Qed.

(** C7: a record whose [publishedAt] is a string that is not a date gets
    the hour count [NaN] and the label "NaNh ago": [Math.max] does not
    floor [NaN] at 1. *)
Theorem mapGNews_age_NaN_on_invalid_date clock a idx topic s d :
  GNewsArticle.publishedAt a = Some s →
  Date_parse s = NaN →
  domain_of (default Source.empty (GNewsArticle.source a))
            (default "#" (GNewsArticle.url a)) = Normal d →
  ageHours_of clock (GNewsArticle.publishedAt a) = NaN ∧
  ∃ item, mapGNews clock a idx topic = Normal item
          ∧ NewsItem.age item = "NaNh ago".
Proof.
  intros Hs Hnan Hd.
  assert (ageHours_of clock (GNewsArticle.publishedAt a) = NaN) as Hage.
  { unfold ageHours_of. rewrite Hs. simpl. by rewrite Hnan. }
  split; [done|].
  destruct (mapGNews_returns clock a idx topic d Hd)
    as (item & Hitem & _ & _ & _ & Hlabel).
  exists item. split; [done|]. by rewrite Hlabel, Hage.
Qed.

End MapperProps.

Lemma mapGNews_throws_on_malformed_url_witness :
  mapGNews (rt := Fragment.runtime) Sample.clock Sample.malformed_article
    0 "all"
  = Throw Fragment.INVALID_URL.
Proof.
  apply (mapGNews_throws_on_malformed_url (rt := Fragment.runtime)
           Sample.clock Sample.malformed_article 0 "all" "not a url"
           Fragment.INVALID_URL);
    [reflexivity | discriminate | discriminate | reflexivity | reflexivity].
Defined.

Lemma mapGNews_age_NaN_on_invalid_date_witness :
  ageHours_of (rt := Fragment.runtime) Sample.clock
    (GNewsArticle.publishedAt Sample.undated_article) = NaN ∧
  ∃ item,
    mapGNews (rt := Fragment.runtime) Sample.clock Sample.undated_article
      0 "all" = Normal item
    ∧ NewsItem.age item = "NaNh ago".
Proof.
  apply (mapGNews_age_NaN_on_invalid_date (rt := Fragment.runtime)
           Sample.clock Sample.undated_article 0 "all" "not a date"
           "example.com");
    reflexivity.
Defined.

(** ** FETCH HELPERS *)

Lemma array_map_from_length {A B} (f : A → nat → Completion B) i arts data :
  array_map_from f i arts = Normal data → length data = length arts.
Proof.
  revert i data. induction arts as [|a arts IH]; intros i data; simpl.
  - by intros [= <-].
  - destruct (f a i) as [b|e]; simpl; [|done].
    destruct (array_map_from f (S i) arts) as [bs|e] eqn:Hbs; simpl; [|done].
    intros [= <-]. simpl. f_equal. by eapply IH.
Qed.

(** The result holds the images of the elements, in order, each mapped
    with its own position. *)
Lemma array_map_from_Forall2 {A B} (f : A → nat → Completion B) i arts data :
  array_map_from f i arts = Normal data →
  Forall2 (λ aj b, f aj.1 aj.2 = Normal b)
    (zip arts (seq i (length arts))) data.
Proof.
  revert i data. induction arts as [|a arts IH]; intros i data; simpl.
  - intros [= <-]. constructor.
  - destruct (f a i) as [b|e] eqn:Hb; simpl; [|done].
    destruct (array_map_from f (S i) arts) as [bs|e] eqn:Hbs; simpl; [|done].
    intros [= <-]. constructor; [done|]. by apply IH.
Qed.

Lemma array_map_from_image {A B C} (f : A → nat → Completion B)
    (g : B → C) (h : nat → C) i arts data :
  (∀ a j b, f a j = Normal b → g b = h j) →
  array_map_from f i arts = Normal data →
  g <$> data = h <$> seq i (length data).
Proof.
  intros Hfg. revert i data.
  induction arts as [|a arts IH]; intros i data; simpl.
  - by intros [= <-].
  - destruct (f a i) as [b|e] eqn:Hb; simpl; [|done].
    destruct (array_map_from f (S i) arts) as [bs|e] eqn:Hbs; simpl; [|done].
    intros [= <-]. simpl. f_equal; [by eapply Hfg|]. by apply IH.
Qed.

Section FetchResultProps.
Context {rt : Runtime}.

(** What a fetch that returns was given: a response with a success
    status and a body that could be read. *)
Lemma fetchGNews_returns token page thread r data :
  resume (fetchGNews token page thread) r = Normal data →
  ∃ res json articles,
    outcome r = Normal res ∧ Response.ok res = true
    ∧ Response.json res = Normal json
    ∧ get_articles json = Normal articles
    ∧ length data = length (articles_or_empty articles)
    ∧ NewsItem.id <$> data = id_at thread page <$> seq 0 (length data)
    ∧ Forall (λ item, NewsItem.thread item = or_str thread "all") data.
Proof.
  unfold fetchGNews. destruct (truthy token); simpl; [|done].
  destruct (outcome r) as [res|e] eqn:Hres; simpl; [|done].
  destruct (Response.ok res) eqn:Hok; simpl; [|done].
  destruct (Response.json res) as [json|e] eqn:Hjson; simpl; [|done].
  destruct (get_articles json) as [articles|e] eqn:Harts; simpl; [|done].
  unfold array_map. intros Hmap.
  exists res, json, articles. split_and!; try done.
  - by eapply array_map_from_length.
  - eapply array_map_from_image; [|exact Hmap].
    intros a j b Hb. simpl in Hb.
    unfold mapGNews in Hb.
    destruct (domain_of _ _) as [d|e]; simpl in Hb; [|done].
    by injection Hb as <-.
  - apply array_map_from_Forall2 in Hmap.
    induction Hmap as [|[a j] b ? ? Hb _ IH]; constructor; [|done].
    simpl in Hb. unfold mapGNews in Hb.
    destruct (domain_of _ _) as [d|e]; simpl in Hb; [|done].
    by injection Hb as <-.
Qed.

(** A response that is not a success makes the fetch throw the network
    error of its status. *)
Lemma fetchGNews_not_ok token page thread r res :
  token ≠ "" →
  outcome r = Normal res → Response.ok res = false →
  resume (fetchGNews token page thread) r
  = Throw (NetworkError (Response.status res)).
Proof.
  intros Ht%truthy_true_iff Hres Hok. unfold fetchGNews. rewrite Ht. simpl.
  rewrite Hres. simpl. by rewrite Hok.
Qed.

(** A success whose body has no [articles], or [null] there, makes the
    fetch return the empty list. *)
Lemma fetchGNews_no_articles token page thread r res articles :
  token ≠ "" →
  outcome r = Normal res → Response.ok res = true →
  Response.json res = Normal (json_object articles) →
  articles = articles_undefined ∨ articles = articles_null →
  resume (fetchGNews token page thread) r = Normal [].
Proof.
  intros Ht%truthy_true_iff Hres Hok Hjson Harts.
  unfold fetchGNews. rewrite Ht. simpl.
  rewrite Hres. simpl. rewrite Hok. simpl. rewrite Hjson. simpl.
  by destruct Harts as [-> | ->].
Qed.

(** A success whose body is the JSON value [null] makes the fetch throw
    the [TypeError] of the property read. *)
Lemma fetchGNews_null_body token page thread r res :
  token ≠ "" →
  outcome r = Normal res → Response.ok res = true →
  Response.json res = Normal json_null →
  ∃ e, resume (fetchGNews token page thread) r = Throw e
       ∧ name e = "TypeError".
Proof.
  intros Ht%truthy_true_iff Hres Hok Hjson.
  unfold fetchGNews. rewrite Ht. simpl.
  rewrite Hres. simpl. rewrite Hok. simpl. rewrite Hjson. simpl.
  by eexists.
Qed.

End FetchResultProps.

(** ** COMPONENTS - NEWS FEED *)

(** The load checks its flag before every update that follows the
    [await]: a cancelled load leaves the cells as they are, whatever the
    fetch settled to. *)
Lemma load_resume_cancelled r s : Feed.load_resume true r s = s.
Proof. by destruct r. Qed.

Lemma load_resume_returned data s :
  Feed.load_resume false (Normal data) s =
  {| Feed.items := Feed.items s ++ data;
     Feed.page := Feed.page s;
     Feed.loading := false;
     Feed.error := Feed.error s;
     Feed.hasMore := (Z.of_nat (length data) =? PAGE_SIZE) |}.
Proof. reflexivity. Qed.

Lemma load_resume_threw e s :
  Feed.load_resume false (Throw e) s =
  {| Feed.items := Feed.items s;
     Feed.page := Feed.page s;
     Feed.loading := false;
     Feed.error := Some (message e);
     Feed.hasMore := Feed.hasMore s |}.
Proof. reflexivity. Qed.

Section SettleProps.
Context {rt : Runtime}.
Variable env : Env.
Import NewsFeed.

Lemma settle_pending i r c l :
  loads c !! i = Some l → Load.settled l = false →
  settle env i r c =
  {| thread := thread c;
     cells := Feed.load_resume (Load.cancelled l)
                (resume (fetchGNews (GNEWS_TOKEN env) (Load.page l)
                           (Load.thread l)) r)
                (cells c);
     loads := <[i := Load.settle l]> (loads c) |}.
Proof. intros Hl Hs. unfold settle. by rewrite Hl, Hs. Qed.

Lemma settle_cells_cancelled i r c l :
  loads c !! i = Some l → Load.cancelled l = true →
  cells (settle env i r c) = cells c.
Proof.
  intros Hl Hc. unfold settle. rewrite Hl.
  destruct (Load.settled l); [done|]. simpl.
  by rewrite Hc, load_resume_cancelled.
Qed.

Lemma GNEWS_TOKEN_nonempty : GNEWS_TOKEN env ≠ "".
Proof. apply truthy_true_iff, GNEWS_TOKEN_truthy. Qed.

End SettleProps.

(** C5: when the fetch of a load that is neither superseded nor settled
    is answered with a status that is not a success, the error holds
    "Network " followed by the status and so contains the status,
    [loading] is false, and the accumulated list is what it was. *)
Theorem http_failure_sets_error {rt : Runtime} (env : Env)
    (c : NewsFeed.t) i l r res :
  NewsFeed.loads c !! i = Some l →
  Load.cancelled l = false → Load.settled l = false →
  outcome r = Normal res → Response.ok res = false →
  let c' := NewsFeed.step env c (NewsFeed.Settle i r) in
  Feed.error (NewsFeed.cells c')
    = Some ("Network " +:+ pretty (Response.status res))
  ∧ (∃ msg, Feed.error (NewsFeed.cells c') = Some msg
            ∧ includes (pretty (Response.status res)) msg = true)
  ∧ Feed.loading (NewsFeed.cells c') = false
  ∧ Feed.items (NewsFeed.cells c') = Feed.items (NewsFeed.cells c)
  ∧ Feed.page (NewsFeed.cells c') = Feed.page (NewsFeed.cells c)
  ∧ Feed.hasMore (NewsFeed.cells c') = Feed.hasMore (NewsFeed.cells c).
Proof.
  intros Hl Hc Hs Hres Hok. simpl.
  rewrite (settle_pending env i r c l Hl Hs). simpl.
  rewrite Hc, (fetchGNews_not_ok _ _ _ r res (GNEWS_TOKEN_nonempty env) Hres Hok).
  rewrite load_resume_threw. simpl. split_and!; try done.
  eexists. split; [done|]. apply includes_suffix.
Qed.

Lemma http_failure_sets_error_witness :
  let c' := NewsFeed.step (rt := Fragment.runtime) ∅ Sample.mounted
              (NewsFeed.Settle 0 (Sample.respond 500 json_null)) in
  Feed.error (NewsFeed.cells c') = Some "Network 500"
  ∧ (∃ msg, Feed.error (NewsFeed.cells c') = Some msg
            ∧ includes "500" msg = true)
  ∧ Feed.loading (NewsFeed.cells c') = false
  ∧ Feed.items (NewsFeed.cells c') = []
  ∧ Feed.page (NewsFeed.cells c') = 1
  ∧ Feed.hasMore (NewsFeed.cells c') = true.
Proof.
  apply (http_failure_sets_error (rt := Fragment.runtime) ∅ Sample.mounted
           0%nat (Load.start 1 None) (Sample.respond 500 json_null)
           {| Response.status := 500; Response.json := Normal json_null |});
    reflexivity.
Defined.

(** C10, amended: a success whose body is a JSON value other than
    [null] and has no [articles] field, or [null] there, makes the
    fetcher return the empty list; a load that is neither superseded nor
    settled then appends nothing and sets [hasMore] to false. *)
Theorem missing_articles_is_empty_page {rt : Runtime} (env : Env)
    (c : NewsFeed.t) i l r res json :
  NewsFeed.loads c !! i = Some l →
  Load.cancelled l = false → Load.settled l = false →
  outcome r = Normal res → Response.ok res = true →
  Response.json res = Normal json →
  lacks_articles json = true →
  json ≠ json_null →
  let c' := NewsFeed.step env c (NewsFeed.Settle i r) in
  resume (fetchGNews (GNEWS_TOKEN env) (Load.page l) (Load.thread l)) r
    = Normal []
  ∧ Feed.items (NewsFeed.cells c') = Feed.items (NewsFeed.cells c)
  ∧ Feed.hasMore (NewsFeed.cells c') = false
  ∧ Feed.loading (NewsFeed.cells c') = false
  ∧ Feed.error (NewsFeed.cells c') = Feed.error (NewsFeed.cells c).
Proof.
  intros Hl Hc Hs Hres Hok Hjson Hlacks Hnull. simpl.
  destruct json as [|articles]; [done|].
  assert (articles = articles_undefined ∨ articles = articles_null) as Harts.
  { destruct articles; simpl in Hlacks; [by left|by right|done]. }
  pose proof (fetchGNews_no_articles _ (Load.page l) (Load.thread l) r res
                articles (GNEWS_TOKEN_nonempty env) Hres Hok Hjson Harts)
    as Hfetch.
  rewrite (settle_pending env i r c l Hl Hs). simpl.
  rewrite Hc, Hfetch, load_resume_returned. simpl.
  split_and!; try done. apply app_nil_r.
Qed.

Lemma missing_articles_is_empty_page_witness :
  let c' := NewsFeed.step (rt := Fragment.runtime) ∅ Sample.mounted
              (NewsFeed.Settle 0
                 (Sample.respond 200 (json_object articles_undefined))) in
  resume (fetchGNews (rt := Fragment.runtime) (GNEWS_TOKEN ∅) 1 None)
    (Sample.respond 200 (json_object articles_undefined)) = Normal []
  ∧ Feed.items (NewsFeed.cells c') = []
  ∧ Feed.hasMore (NewsFeed.cells c') = false
  ∧ Feed.loading (NewsFeed.cells c') = false
  ∧ Feed.error (NewsFeed.cells c') = None.
Proof.
  apply (missing_articles_is_empty_page (rt := Fragment.runtime) ∅
           Sample.mounted 0%nat (Load.start 1 None)
           (Sample.respond 200 (json_object articles_undefined))
           {| Response.status := 200;
              Response.json := Normal (json_object articles_undefined) |}
           (json_object articles_undefined));
    first [reflexivity | discriminate].
Defined.

(** The claim as first stated, for every success whose body lacks an
    [articles] field, fails for the body [null]: it is a success, it has
    no [articles] field, and yet the fetch throws the [TypeError] of the
    property read instead of returning the empty list; the feed then
    shows that message and [hasMore] stays true. *)
Lemma null_body_is_not_an_empty_page :
  let r := Sample.respond 200 json_null in
  let c' := NewsFeed.step (rt := Fragment.runtime) ∅ Sample.mounted
              (NewsFeed.Settle 0 r) in
  (∃ res, outcome r = Normal res ∧ Response.ok res = true
          ∧ Response.json res = Normal json_null)
  ∧ lacks_articles json_null = true
  ∧ resume (fetchGNews (rt := Fragment.runtime) (GNEWS_TOKEN ∅) 1 None) r
    = Throw (TypeError "Cannot read properties of null (reading 'articles')")
  ∧ resume (fetchGNews (rt := Fragment.runtime) (GNEWS_TOKEN ∅) 1 None) r
    ≠ Normal []
  ∧ Feed.error (NewsFeed.cells c')
    = Some "Cannot read properties of null (reading 'articles')"
  ∧ Feed.hasMore (NewsFeed.cells c') = true
  ∧ Feed.hasMore (NewsFeed.cells c') ≠ false.
Proof.
  cbv zeta. split_and!.
  - eexists. by split_and!.
  - done.
  - by vm_compute.
  - by vm_compute.
  - by vm_compute.
  - by vm_compute.
  - by vm_compute.
Qed.

(** C4: when a load that is neither superseded nor settled completes
    with a page of at most [PAGE_SIZE] articles, [hasMore] is false
    afterwards exactly when the page held fewer than [PAGE_SIZE]. *)
Theorem hasMore_false_iff_short_page {rt : Runtime} (env : Env)
    (c : NewsFeed.t) i l r data :
  NewsFeed.loads c !! i = Some l →
  Load.cancelled l = false → Load.settled l = false →
  resume (fetchGNews (GNEWS_TOKEN env) (Load.page l) (Load.thread l)) r
    = Normal data →
  Z.of_nat (length data) ≤ PAGE_SIZE →
  let c' := NewsFeed.step env c (NewsFeed.Settle i r) in
  (Feed.hasMore (NewsFeed.cells c') = false
   ↔ Z.of_nat (length data) < PAGE_SIZE)
  ∧ Feed.items (NewsFeed.cells c') = Feed.items (NewsFeed.cells c) ++ data.
Proof.
  intros Hl Hc Hs Hfetch Hlen. simpl.
  rewrite (settle_pending env i r c l Hl Hs). simpl.
  rewrite Hc, Hfetch, load_resume_returned. simpl. split; [|done].
  destruct (Z.eqb_spec (Z.of_nat (length data)) PAGE_SIZE); split;
    first [done | lia].
Qed.

Lemma hasMore_false_iff_short_page_witness :
  let data :=
    [ {| NewsItem.id := "all-0";
         NewsItem.title := "Headline";
         NewsItem.url := "https://example.com/story";
         NewsItem.favicon :=
           "https://www.google.com/s2/favicons?domain=example.com";
         NewsItem.thumbnail := None;
         NewsItem.comments := 0;
         NewsItem.votes := 0;
         NewsItem.age := "1h ago";
         NewsItem.thread := "all" |} ] in
  let c' := NewsFeed.step (rt := Fragment.runtime) ∅ Sample.mounted
              (NewsFeed.Settle 0 (Sample.page_of [Sample.good_article])) in
  (Feed.hasMore (NewsFeed.cells c') = false
   ↔ Z.of_nat (length data) < PAGE_SIZE)
  ∧ Feed.items (NewsFeed.cells c') = [] ++ data.
Proof.
  apply (hasMore_false_iff_short_page (rt := Fragment.runtime) ∅
           Sample.mounted 0%nat (Load.start 1 None)
           (Sample.page_of [Sample.good_article]));
    first [reflexivity | vm_compute; discriminate].
Defined.

(** Without the bound on the page, a page of more than [PAGE_SIZE]
    articles also ends with [hasMore] false. *)
Lemma hasMore_is_full_page data s :
  Feed.hasMore (Feed.load_resume false (Normal data) s)
  = (Z.of_nat (length data) =? PAGE_SIZE).
Proof. reflexivity. Qed.

(** C6: from every state of the feed, a render with another thread
    leaves the accumulated list empty, the page at 1 and [hasMore] true,
    and the load in flight is then the one of page 1 of that thread. *)
Theorem thread_change_resets {rt : Runtime} (env : Env)
    (c : NewsFeed.t) (t : option string) :
  t ≠ NewsFeed.thread c →
  let c' := NewsFeed.step env c (NewsFeed.SetThread t) in
  Feed.items (NewsFeed.cells c') = []
  ∧ Feed.page (NewsFeed.cells c') = 1
  ∧ Feed.hasMore (NewsFeed.cells c') = true
  ∧ NewsFeed.thread c' = t
  ∧ last (NewsFeed.loads c') = Some (Load.start 1 t).
Proof.
  intros Hne. simpl. destruct (decide (t = NewsFeed.thread c)); [done|].
  unfold NewsFeed.change_thread, NewsFeed.rerender. simpl.
  destruct (decide (1 = Feed.page (NewsFeed.cells c))) as [<-|]; simpl;
    split_and!; try done; apply last_snoc.
Qed.

Lemma thread_change_resets_witness :
  let c' := NewsFeed.step (rt := Fragment.runtime) ∅
              (NewsFeed.load_more Sample.mounted)
              (NewsFeed.SetThread (Some "world")) in
  Feed.items (NewsFeed.cells c') = []
  ∧ Feed.page (NewsFeed.cells c') = 1
  ∧ Feed.hasMore (NewsFeed.cells c') = true
  ∧ NewsFeed.thread c' = Some "world"
  ∧ last (NewsFeed.loads c') = Some (Load.start 1 (Some "world")).
Proof.
  apply (thread_change_resets (rt := Fragment.runtime) ∅
           (NewsFeed.load_more Sample.mounted) (Some "world")).
  discriminate.
Defined.

(** ** Loads and their cancellation *)

Section LoadProps.
Context {rt : Runtime}.
Variable env : Env.
Import NewsFeed Invariant.

Lemma cleanup_snoc c older cur :
  loads c = older ++ [cur] →
  loads (cleanup c) = older ++ [Load.cancel cur].
Proof.
  intros Hl. unfold cleanup. simpl. rewrite Hl, length_app. simpl.
  replace (pred (length older + 1)) with (length older + 0)%nat by lia.
  by rewrite alter_app_r.
Qed.

Lemma cancelled_at_cleanup i c : cancelled_at i c → cancelled_at i (cleanup c).
Proof.
  intros (l & Hl & Hc). unfold cancelled_at, cleanup. simpl.
  destruct (decide (pred (length (loads c)) = i)) as [<-|Hne].
  - exists (Load.cancel l). split; [|done].
    by rewrite list_lookup_alter_eq, Hl.
  - exists l. split; [|done]. by rewrite list_lookup_alter_ne.
Qed.

Lemma cancelled_at_run_load_effect i p t c :
  cancelled_at i c → cancelled_at i (run_load_effect p t c).
Proof.
  intros (l & Hl & Hc). exists l. split; [|done]. simpl.
  by apply lookup_app_l_Some.
Qed.

Lemma cancelled_at_rerender i seen c :
  cancelled_at i c → cancelled_at i (rerender seen c).
Proof.
  intros Hi. unfold rerender. case_decide; [done|].
  by apply cancelled_at_run_load_effect, cancelled_at_cleanup.
Qed.

Lemma cancelled_at_settle i j r c :
  cancelled_at i c → cancelled_at i (settle env j r c).
Proof.
  intros (l & Hl & Hc). unfold settle.
  destruct (loads c !! j) as [lj|] eqn:Hj; [|by exists l].
  destruct (Load.settled lj); [by exists l|].
  unfold cancelled_at. simpl.
  destruct (decide (j = i)) as [->|Hne].
  - exists (Load.settle lj). simplify_eq.
    split; [|done]. apply list_lookup_insert_eq. by eapply lookup_lt_Some.
  - exists l. by rewrite list_lookup_insert_ne.
Qed.

(** The flag of a load is never reset. *)
Lemma cancelled_at_step i c e :
  cancelled_at i c → cancelled_at i (step env c e).
Proof.
  intros Hi. destruct e as [t| |j r]; simpl.
  - case_decide; [done|]. unfold change_thread.
    apply cancelled_at_rerender, cancelled_at_run_load_effect.
    by apply (cancelled_at_cleanup i c) in Hi.
  - destruct (Feed.load_more_visible (cells c)); [|done].
    by apply cancelled_at_rerender.
  - by apply cancelled_at_settle.
Qed.

Lemma cancelled_at_run i c events :
  cancelled_at i c → cancelled_at i (run env c events).
Proof.
  revert c. induction events as [|e events IH]; intros c Hi; [done|].
  simpl. by apply IH, cancelled_at_step.
Qed.

(** A new run of the second effect, after the cleanup of the last one. *)
Lemma loads_seen_rerun seen p c :
  loads_seen seen c →
  loads_seen p (run_load_effect p (thread c) (cleanup c)).
Proof.
  intros (older & cur & Hl & Hold & _ & _ & _).
  exists (older ++ [Load.cancel cur]), (Load.start p (thread c)).
  unfold run_load_effect. cbn [loads thread].
  rewrite (cleanup_snoc c older cur Hl).
  split_and!; try done.
  apply Forall_app. split; [done|]. by constructor.
Qed.

Lemma loads_ok_rerender seen c : loads_seen seen c → loads_ok (rerender seen c).
Proof.
  intros Hc. unfold rerender, loads_ok. case_decide as Hp.
  - by rewrite Hp.
  - simpl. by eapply loads_seen_rerun.
Qed.

Lemma loads_ok_mount t : loads_ok (mount t).
Proof.
  exists [], (Load.start 1 t). by split_and!.
Qed.

Lemma loads_ok_change_thread t c : loads_ok c → loads_ok (change_thread t c).
Proof.
  intros (older & cur & Hl & Hold & _ & _ & _).
  unfold change_thread. apply loads_ok_rerender.
  exists (older ++ [Load.cancel cur]), (Load.start (Feed.page (cells c)) t).
  unfold run_load_effect, run_reset_effect. cbn [loads thread].
  rewrite (cleanup_snoc c older cur Hl).
  split_and!; try done.
  apply Forall_app. split; [done|]. by constructor.
Qed.

Lemma loads_ok_load_more c : loads_ok c → loads_ok (load_more c).
Proof.
  intros Hc. unfold load_more. by apply loads_ok_rerender.
Qed.

Lemma settle_unchanged_cells i r c :
  (∀ l, loads c !! i = Some l → Load.settled l = false →
        Load.cancelled l = true) →
  cells (settle env i r c) = cells c.
Proof.
  intros Hi. unfold settle.
  destruct (loads c !! i) as [l|] eqn:Hl; [|done].
  destruct (Load.settled l) eqn:Hs; [done|]. simpl.
  by rewrite (Hi l), load_resume_cancelled.
Qed.

Lemma loads_ok_settle i r c : loads_ok c → loads_ok (settle env i r c).
Proof.
  intros (older & cur & Hl & Hold & Hcur & Hp & Ht). unfold settle.
  destruct (loads c !! i) as [l|] eqn:Hi; [|by exists older, cur].
  destruct (Load.settled l) eqn:Hs; [by exists older, cur|].
  assert (Feed.page (Feed.load_resume (Load.cancelled l)
            (resume (fetchGNews (GNEWS_TOKEN env) (Load.page l)
                       (Load.thread l)) r) (cells c))
          = Feed.page (cells c)) as Hpage.
  { destruct (Load.cancelled l); [by rewrite load_resume_cancelled|].
    by destruct (resume _ r). }
  unfold loads_ok, loads_seen. simpl. rewrite Hpage, Hl. rewrite Hl in Hi.
  destruct (decide (i < length older)%nat) as [Hlt|Hge].
  - exists (<[i := Load.settle l]> older), cur.
    rewrite insert_app_l by done. split_and!; try done.
    apply Forall_insert; [done|]. simpl.
    rewrite lookup_app_l in Hi by done.
    by eapply (Forall_lookup_1 _ _ _ _ Hold Hi).
  - rewrite lookup_app_r in Hi by lia.
    destruct (i - length older)%nat as [|k] eqn:Hk; [|done].
    simpl in Hi. injection Hi as <-.
    exists older, (Load.settle cur).
    replace i with (length older + 0)%nat by lia.
    rewrite insert_app_r. by split_and!.
Qed.

Lemma loads_ok_step c e : loads_ok c → loads_ok (step env c e).
Proof.
  intros Hc. destruct e as [t| |i r]; simpl.
  - case_decide; [done|]. by apply loads_ok_change_thread.
  - destruct (Feed.load_more_visible (cells c)); [|done].
    by apply loads_ok_load_more.
  - by apply loads_ok_settle.
Qed.

Lemma loads_ok_run c events : loads_ok c → loads_ok (run env c events).
Proof.
  revert c. induction events as [|e events IH]; intros c Hc; [done|].
  simpl. by apply IH, loads_ok_step.
Qed.

(** A change of the rendered page or thread cancels every load started
    so far. *)
Lemma step_supersedes c e i l :
  loads_ok c →
  loads c !! i = Some l →
  (thread (step env c e), Feed.page (cells (step env c e)))
    ≠ (thread c, Feed.page (cells c)) →
  cancelled_at i (step env c e).
Proof.
  intros (older & cur & Hl & Hold & Hcur & Hp & Ht) Hi Hchange.
  assert (cancelled_at i (cleanup c)) as Hcl.
  { unfold cancelled_at. rewrite (cleanup_snoc c older cur Hl).
    rewrite Hl in Hi.
    destruct (decide (i < length older)%nat) as [Hlt|Hge].
    - rewrite lookup_app_l in Hi by done. exists l.
      rewrite lookup_app_l by done. split; [done|].
      by eapply (Forall_lookup_1 _ _ _ _ Hold Hi).
    - rewrite lookup_app_r in Hi by lia. rewrite lookup_app_r by lia.
      destruct (i - length older)%nat as [|k]; [|done].
      exists (Load.cancel cur). by split. }
  destruct e as [t| |j r]; simpl in *.
  - case_decide; [done|]. unfold change_thread.
    by apply cancelled_at_rerender, cancelled_at_run_load_effect.
  - destruct (Feed.load_more_visible (cells c)); [|done].
    unfold load_more, rerender. simpl. case_decide; [lia|].
    by apply cancelled_at_run_load_effect.
  - exfalso. apply Hchange. f_equal.
    + unfold settle. destruct (loads c !! j) as [lj|]; [|done].
      by destruct (Load.settled lj).
    + unfold settle. destruct (loads c !! j) as [lj|]; [|done].
      destruct (Load.settled lj); [done|]. simpl.
      destruct (Load.cancelled lj); [by rewrite load_resume_cancelled|].
      by destruct (resume _ r).
Qed.

(** In a state where every load but the latest is cancelled, the
    completion of any load but the latest changes no cell. *)
Lemma older_load_is_discarded c i r :
  loads_ok c → (S i < length (loads c))%nat →
  cells (settle env i r c) = cells c.
Proof.
  intros (older & cur & Hl & Hold & _) Hi.
  apply settle_unchanged_cells. intros l Hli _.
  rewrite Hl, length_app in Hi. simpl in Hi.
  rewrite Hl, lookup_app_l in Hli by lia.
  by eapply (Forall_lookup_1 _ _ _ _ Hold Hli).
Qed.

End LoadProps.

(** C1: take any state of a mounted feed and any load started so far.
    Once an event changes the rendered page or thread, that load is
    flagged as cancelled, it stays so whatever happens next, and the
    completion of its fetch - with any outcome - changes none of the
    cells (items, page, loading, error, hasMore).  The same holds for
    every load but the latest one, which covers the load that a change
    of thread starts with the old page and drops in the next render. *)
Theorem superseded_load_is_discarded {rt : Runtime} (env : Env)
    (th : option string) (before : list NewsFeed.Event)
    (e : NewsFeed.Event) (after : list NewsFeed.Event) i l r :
  let c := NewsFeed.run env (NewsFeed.mount th) before in
  let c1 := NewsFeed.step env c e in
  let c2 := NewsFeed.run env c1 after in
  NewsFeed.loads c !! i = Some l →
  (NewsFeed.thread c1, Feed.page (NewsFeed.cells c1))
    ≠ (NewsFeed.thread c, Feed.page (NewsFeed.cells c)) →
  Invariant.cancelled_at i c2
  ∧ NewsFeed.cells (NewsFeed.step env c2 (NewsFeed.Settle i r))
    = NewsFeed.cells c2
  ∧ (∀ j r', (S j < length (NewsFeed.loads c2))%nat →
       NewsFeed.cells (NewsFeed.step env c2 (NewsFeed.Settle j r'))
       = NewsFeed.cells c2).
Proof.
  intros c c1 c2 Hl Hchange.
  assert (Invariant.loads_ok c) as Hok
    by apply loads_ok_run, loads_ok_mount.
  assert (Invariant.cancelled_at i c2) as Hc2.
  { apply cancelled_at_run. by eapply step_supersedes. }
  split_and!; [done| |].
  - destruct Hc2 as (l2 & Hl2 & Hflag).
    simpl. by eapply settle_cells_cancelled.
  - intros j r' Hj. simpl. apply older_load_is_discarded; [|done].
    by apply loads_ok_run, loads_ok_step.
Qed.

Lemma superseded_load_is_discarded_witness :
  let c2 := NewsFeed.step (rt := Fragment.runtime) ∅ Sample.mounted
              (NewsFeed.SetThread (Some "world")) in
  Invariant.cancelled_at 0 c2
  ∧ NewsFeed.cells
      (NewsFeed.step (rt := Fragment.runtime) ∅ c2
         (NewsFeed.Settle 0 (Sample.page_of [Sample.good_article])))
    = NewsFeed.cells c2
  ∧ (∀ j r', (S j < length (NewsFeed.loads c2))%nat →
       NewsFeed.cells
         (NewsFeed.step (rt := Fragment.runtime) ∅ c2 (NewsFeed.Settle j r'))
       = NewsFeed.cells c2).
Proof.
  apply (superseded_load_is_discarded (rt := Fragment.runtime) ∅ None []
           (NewsFeed.SetThread (Some "world")) [] 0%nat (Load.start 1 None)
           (Sample.page_of [Sample.good_article]));
    [reflexivity | discriminate].
Defined.

(** A load that is still current does change the cells when its fetch
    completes: the flag, not the completion, is what discards. *)
Example current_load_is_applied :
  Feed.items
    (NewsFeed.cells
       (NewsFeed.step (rt := Fragment.runtime) ∅ Sample.mounted
          (NewsFeed.Settle 0 (Sample.page_of [Sample.good_article]))))
  ≠ [].
Proof. discriminate. Qed.

(** ** Identifiers of the accumulated list *)

Section IdProps.
Import NewsFeed Invariant.

Lemma id_label_inj label :
  Inj (=) (=) (λ k : Z, label +:+ "-" +:+ pretty k).
Proof.
  intros k1 k2 Heq.
  apply (inj (String.app label)) in Heq.
  apply (inj (String.app "-")) in Heq.
  by apply (inj pretty) in Heq.
Qed.

Lemma indices_below_NoDup bound label items :
  indices_below bound label items → NoDup (NewsItem.id <$> items).
Proof.
  intros (idxs & -> & Hnd & _).
  pose proof (id_label_inj label). by apply NoDup_fmap_2.
Qed.

Lemma indices_below_nil bound label : indices_below bound label [].
Proof. exists []. split_and!; [done|constructor|constructor]. Qed.

Lemma indices_below_mono bound bound' label items :
  bound ≤ bound' →
  indices_below bound label items → indices_below bound' label items.
Proof.
  intros Hle (idxs & Hids & Hnd & Hlt). exists idxs. split_and!; try done.
  eapply Forall_impl; [exact Hlt|]. simpl. lia.
Qed.

(** Appending page [page], of at most [PAGE_SIZE] articles, to indices
    of the pages before it. *)
Lemma indices_below_append thread page items data :
  indices_below ((page - 1) * PAGE_SIZE) (or_str thread "all") items →
  NewsItem.id <$> data = id_at thread page <$> seq 0 (length data) →
  Z.of_nat (length data) ≤ PAGE_SIZE →
  indices_below (page * PAGE_SIZE) (or_str thread "all") (items ++ data).
Proof.
  intros (idxs & Hids & Hnd & Hlt) Hdata Hlen.
  set (index := λ j : nat, (page - 1) * PAGE_SIZE + Z.of_nat j).
  exists (idxs ++ (index <$> seq 0 (length data))). split_and!.
  - rewrite !fmap_app, Hids, Hdata. f_equal.
    by rewrite <- list_fmap_compose.
  - apply NoDup_app. split_and!; [done| |].
    + intros k Hk [j [-> Hj]]%list_elem_of_fmap.
      rewrite Forall_forall in Hlt. specialize (Hlt _ Hk).
      unfold index in Hlt. lia.
    + apply NoDup_fmap_2; [|apply NoDup_seq].
      intros j1 j2. unfold index. lia.
  - apply Forall_app. split.
    + eapply Forall_impl; [exact Hlt|]. simpl. lia.
    + apply Forall_fmap, Forall_forall. intros j Hj%elem_of_seq.
      unfold index. simpl. lia.
Qed.

End IdProps.

Section ItemsProps.
Context {rt : Runtime}.
Variable env : Env.
Import NewsFeed Invariant.

Lemma items_ok_empty c :
  loads_ok c → Feed.items (cells c) = [] → 1 ≤ Feed.page (cells c) →
  items_ok c.
Proof.
  intros (older & cur & Hl & _) Hitems Hpage. split; [done|].
  exists older, cur. split; [done|]. rewrite Hitems.
  apply indices_below_nil.
Qed.

Lemma items_ok_mount t : items_ok (mount t).
Proof. apply items_ok_empty; [apply loads_ok_mount|done|done]. Qed.

Lemma change_thread_cells t c :
  Feed.items (cells (change_thread t c)) = []
  ∧ Feed.page (cells (change_thread t c)) = 1.
Proof.
  unfold change_thread, rerender. simpl. by case_decide.
Qed.

Lemma items_ok_change_thread t c : loads_ok c → items_ok (change_thread t c).
Proof.
  intros Hc. destruct (change_thread_cells t c) as [Hitems Hpage].
  apply items_ok_empty; [by apply loads_ok_change_thread|done|lia].
Qed.

Lemma items_ok_load_more c : items_ok c → items_ok (load_more c).
Proof.
  intros (Hpage & older & cur & Hl & Hitems).
  unfold load_more, rerender. simpl. case_decide; [lia|].
  split; simpl; [lia|].
  eexists _, _. split; [done|]. simpl.
  eapply indices_below_mono; [|exact Hitems].
  destruct (Load.settled cur); unfold PAGE_SIZE; lia.
Qed.

Lemma articles_of_read r res json articles :
  outcome r = Normal res → Response.json res = Normal json →
  get_articles json = Normal articles →
  articles_of r = articles_or_empty articles.
Proof.
  intros Hres Hjson Harts. unfold articles_of. rewrite Hres, Hjson.
  destruct json; simpl in Harts; [done|]. by injection Harts as ->.
Qed.

Lemma items_ok_settle i r c :
  Z.of_nat (length (articles_of r)) ≤ PAGE_SIZE →
  loads_ok c → items_ok c → items_ok (settle env i r c).
Proof.
  intros Hsize (older & cur & Hl & Hold & Hcur & Hp & Ht)
         (Hpage & older' & cur' & Hl' & Hitems).
  rewrite Hl in Hl'. apply app_inj_tail in Hl' as [<- <-].
  unfold settle. destruct (loads c !! i) as [l|] eqn:Hi;
    [|split; [done|]; by exists older, cur].
  destruct (Load.settled l) eqn:Hs; [split; [done|]; by exists older, cur|].
  rewrite Hl in Hi.
  destruct (decide (i < length older)%nat) as [Hlt|Hge].
  - rewrite lookup_app_l in Hi by done.
    rewrite (Forall_lookup_1 _ _ _ _ Hold Hi).
    rewrite load_resume_cancelled. split; [done|]. simpl.
    exists (<[i := Load.settle l]> older), cur. split; [|done].
    by rewrite Hl, insert_app_l.
  - rewrite lookup_app_r in Hi by lia.
    destruct (i - length older)%nat as [|k] eqn:Hk; [|done].
    simpl in Hi. injection Hi as <-. rewrite Hs in Hitems.
    rewrite Hcur, Hp, Ht.
    assert (loads
              {| thread := thread c;
                 cells := Feed.load_resume false
                   (resume (fetchGNews (GNEWS_TOKEN env)
                              (Feed.page (cells c)) (thread c)) r) (cells c);
                 loads := <[i := Load.settle cur]> (loads c) |}
            = older ++ [Load.settle cur]) as Hloads.
    { simpl. rewrite Hl. replace i with (length older + 0)%nat by lia.
      by rewrite insert_app_r. }
    destruct (resume _ r) as [data|e] eqn:Hfetch.
    + rewrite load_resume_returned. split; [done|].
      exists older, (Load.settle cur). split; [done|]. simpl.
      destruct (fetchGNews_returns _ _ _ _ _ Hfetch)
        as (res & json & articles & Hres & _ & Hjson & Harts & Hlen
            & Hids & _).
      apply indices_below_append; [done|done|].
      rewrite Hlen, <- (articles_of_read r res json articles); done.
    + rewrite load_resume_threw. split; [done|].
      exists older, (Load.settle cur). split; [done|]. simpl.
      eapply indices_below_mono; [|exact Hitems]. unfold PAGE_SIZE. lia.
Qed.

Lemma items_ok_step c e :
  page_within_size e → loads_ok c → items_ok c → items_ok (step env c e).
Proof.
  intros He Hloads Hitems. destruct e as [t| |i r]; simpl.
  - case_decide; [done|]. by apply items_ok_change_thread.
  - destruct (Feed.load_more_visible (cells c)); [|done].
    by apply items_ok_load_more.
  - by apply items_ok_settle.
Qed.

Lemma items_ok_run c events :
  Forall page_within_size events →
  loads_ok c → items_ok c → items_ok (run env c events).
Proof.
  revert c. induction events as [|e events IH]; intros c Hev Hl Hi; [done|].
  apply Forall_cons in Hev as [He Hev]. simpl.
  apply IH; [done|by apply loads_ok_step|by apply items_ok_step].
Qed.

End ItemsProps.

(** C8: a fetched page gives position [j] the identifier
    "{thread}-{(page - 1) * 10 + j}"; and in every state of a mounted
    feed reached through pages of at most [PAGE_SIZE] articles, the
    identifiers of the accumulated list are pairwise distinct and all
    carry the label of the rendered thread. *)
Theorem ids_pairwise_distinct {rt : Runtime} (env : Env)
    (th : option string) (events : list NewsFeed.Event) :
  Forall Invariant.page_within_size events →
  let c := NewsFeed.run env (NewsFeed.mount th) events in
  NoDup (NewsItem.id <$> Feed.items (NewsFeed.cells c))
  ∧ (∃ idxs : list Z,
       NewsItem.id <$> Feed.items (NewsFeed.cells c)
       = (λ k, or_str (NewsFeed.thread c) "all" +:+ "-" +:+ pretty k) <$> idxs
       ∧ NoDup idxs)
  ∧ (∀ token page thread r data,
       resume (fetchGNews token page thread) r = Normal data →
       NewsItem.id <$> data
       = (λ j : nat, or_str thread "all" +:+ "-"
                     +:+ pretty ((page - 1) * 10 + Z.of_nat j))
         <$> seq 0 (length data)).
Proof.
  intros Hev c.
  assert (Invariant.items_ok c) as (_ & older & cur & _ & Hitems).
  { apply items_ok_run;
      [done | apply loads_ok_mount | apply items_ok_mount]. }
  split_and!.
  - by eapply indices_below_NoDup.
  - destruct Hitems as (idxs & Hids & Hnd & _). by exists idxs.
  - intros token page thread r data Hfetch.
    by destruct (fetchGNews_returns _ _ _ _ _ Hfetch)
      as (_ & _ & _ & _ & _ & _ & _ & _ & Hids & _).
Qed.

Lemma ids_pairwise_distinct_witness :
  let c := NewsFeed.run (rt := Fragment.runtime) ∅ (NewsFeed.mount None)
             Sample.session in
  NoDup (NewsItem.id <$> Feed.items (NewsFeed.cells c))
  ∧ (∃ idxs : list Z,
       NewsItem.id <$> Feed.items (NewsFeed.cells c)
       = (λ k, or_str (NewsFeed.thread c) "all" +:+ "-" +:+ pretty k) <$> idxs
       ∧ NoDup idxs)
  ∧ (∀ token page thread r data,
       resume (fetchGNews (rt := Fragment.runtime) token page thread) r
       = Normal data →
       NewsItem.id <$> data
       = (λ j : nat, or_str thread "all" +:+ "-"
                     +:+ pretty ((page - 1) * 10 + Z.of_nat j))
         <$> seq 0 (length data)).
Proof.
  apply (ids_pairwise_distinct (rt := Fragment.runtime) ∅ None
           Sample.session).
  repeat constructor; vm_compute; discriminate.
Defined.

(** The session of the specification: ten articles and [hasMore] true;
    "Load more"; four articles more, [hasMore] false and no button. *)
Example session_scenario :
  let c1 := NewsFeed.run (rt := Fragment.runtime) ∅ (NewsFeed.mount None)
              (take 1 Sample.session) in
  let c := NewsFeed.run (rt := Fragment.runtime) ∅ (NewsFeed.mount None)
             Sample.session in
  Feed.hasMore (NewsFeed.cells c1) = true
  ∧ Feed.load_more_visible (NewsFeed.cells c1) = true
  ∧ length (Feed.items (NewsFeed.cells c)) = 14%nat
  ∧ Feed.page (NewsFeed.cells c) = 2
  ∧ Feed.hasMore (NewsFeed.cells c) = false
  ∧ Feed.load_more_visible (NewsFeed.cells c) = false
  ∧ NewsItem.id <$> Feed.items (NewsFeed.cells c)
    = ["all-0"; "all-1"; "all-2"; "all-3"; "all-4"; "all-5"; "all-6";
       "all-7"; "all-8"; "all-9"; "all-10"; "all-11"; "all-12"; "all-13"].
Proof. vm_compute. by split_and!. Qed.

(** One article with a malformed [url] fails the whole page: the feed
    shows the parser's message and appends nothing. *)
Example malformed_url_fails_the_page :
  let c := NewsFeed.step (rt := Fragment.runtime) ∅ Sample.mounted
             (NewsFeed.Settle 0
                (Sample.page_of [Sample.good_article;
                                 Sample.malformed_article])) in
  Feed.error (NewsFeed.cells c) = Some "Invalid URL"
  ∧ Feed.items (NewsFeed.cells c) = []
  ∧ Feed.loading (NewsFeed.cells c) = false.
Proof. vm_compute. by split_and!. Qed.

(** * Further properties *)

(** ** VOTE BAR: sequences of clicks *)

Lemma click_keeps_own_vote v0 s k :
  VoteBar.votes s = v0 + VoteClicks.own_vote (VoteBar.dir s) →
  VoteBar.votes (VoteClicks.click s k)
  = v0 + VoteClicks.own_vote (VoteBar.dir (VoteClicks.click s k)).
Proof.
  destruct s as [v [[]|]], k; simpl; lia.
Qed.

Lemma run_keeps_own_vote v0 s clicks :
  VoteBar.votes s = v0 + VoteClicks.own_vote (VoteBar.dir s) →
  VoteBar.votes (VoteClicks.run s clicks)
  = v0 + VoteClicks.own_vote (VoteBar.dir (VoteClicks.run s clicks)).
Proof.
  revert s. induction clicks as [|k clicks IH]; intros s Hs; [done|].
  simpl. by apply IH, click_keeps_own_vote.
Qed.

(** X1: after any sequence of clicks on the two arrows, the count is the
    initial count plus the user's own vote (+1 up, -1 down, 0 none); so
    it never leaves the range from initial-1 to initial+1. *)
Theorem votes_are_initial_plus_own_vote (v0 : Z)
    (clicks : list VoteClicks.Click) :
  let s := VoteClicks.run (VoteBar.init v0) clicks in
  VoteBar.votes s = v0 + VoteClicks.own_vote (VoteBar.dir s)
  ∧ v0 - 1 ≤ VoteBar.votes s ≤ v0 + 1.
Proof.
  intros s.
  assert (VoteBar.votes s = v0 + VoteClicks.own_vote (VoteBar.dir s)) as Hs.
  { apply run_keeps_own_vote. simpl. lia. }
  split; [done|]. rewrite Hs.
  destruct (VoteBar.dir s) as [[]|]; simpl; lia.
Qed.

(** ** NEWS CARD *)

(** X2: the card of a mapped article starts with no comments and a vote
    bar at 0, so after any clicks it shows -1, 0 or 1; it shows a
    thumbnail exactly when the article had a non-empty [image], and a
    favicon exactly when a non-empty domain was resolved. *)
Theorem card_of_mapped_article {rt : Runtime} clock a idx topic item
    (clicks : list VoteClicks.Click) :
  mapGNews clock a idx topic = Normal item →
  let s := VoteClicks.run (NewsCard.voteBar item) clicks in
  NewsItem.comments item = 0
  ∧ VoteBar.votes s = VoteClicks.own_vote (VoteBar.dir s)
  ∧ -1 ≤ VoteBar.votes s ≤ 1
  ∧ NewsCard.shows_thumbnail item = truthy_opt (GNewsArticle.image a)
  ∧ (NewsCard.shows_favicon item = true
     ↔ ∃ d, domain_of (default Source.empty (GNewsArticle.source a))
              (default "#" (GNewsArticle.url a)) = Normal d ∧ d ≠ "").
Proof.
  intros Hmap s. unfold mapGNews in Hmap.
  destruct (domain_of _ _) as [d|e] eqn:Hd; simpl in Hmap; [|done].
  injection Hmap as <-.
  destruct (votes_are_initial_plus_own_vote 0 clicks) as [Hv Hr].
  change (VoteClicks.run (VoteBar.init 0) clicks) with s in Hv, Hr.
  split; [done|]. split; [lia|]. split; [lia|]. split; [done|].
  unfold NewsCard.shows_favicon. simpl. split.
  - intros Hf. exists d. split; [done|]. intros ->. by simpl in Hf.
  - intros (d' & [= <-] & Hne). apply truthy_true_iff in Hne as Ht.
    rewrite Ht. by apply truthy_true_iff.
Qed.

Lemma card_of_mapped_article_witness :
  let s := VoteClicks.run (NewsCard.voteBar Scenario.good_item)
             [VoteClicks.arrow_up; VoteClicks.arrow_down] in
  NewsItem.comments Scenario.good_item = 0
  ∧ VoteBar.votes s = VoteClicks.own_vote (VoteBar.dir s)
  ∧ -1 ≤ VoteBar.votes s ≤ 1
  ∧ NewsCard.shows_thumbnail Scenario.good_item
    = truthy_opt (GNewsArticle.image Sample.good_article)
  ∧ (NewsCard.shows_favicon Scenario.good_item = true
     ↔ ∃ d, domain_of (rt := Fragment.runtime)
              (default Source.empty (GNewsArticle.source Sample.good_article))
              (default "#" (GNewsArticle.url Sample.good_article))
            = Normal d ∧ d ≠ "").
Proof.
  apply (card_of_mapped_article (rt := Fragment.runtime) Sample.clock
           Sample.good_article 0 "all" Scenario.good_item
           [VoteClicks.arrow_up; VoteClicks.arrow_down]).
  reflexivity.
Defined.

(** ** MAPPER: when the URL parser is not consulted *)

Section MapperEdges.
Context {rt : Runtime}.

(** X3: when the source has a non-empty [url], that string is the
    domain of the favicon and the article's own [url] is never parsed:
    the mapper returns whatever the URL parser would do with it. *)
Theorem source_url_is_the_domain clock a idx topic src s :
  GNewsArticle.source a = Some src →
  Source.url src = Some s → s ≠ "" →
  ∃ item, mapGNews clock a idx topic = Normal item
          ∧ NewsItem.favicon item = FAVICON_PREFIX +:+ s
          ∧ NewsItem.url item = default "#" (GNewsArticle.url a)
          ∧ NewsItem.title item = default "Untitled" (GNewsArticle.title a).
Proof.
  intros Hsrc Hurl Hne%truthy_true_iff.
  unfold mapGNews, domain_of. rewrite Hsrc. simpl. rewrite Hurl, Hne. simpl.
  rewrite Hne. by eexists.
Qed.

(** X4: when the source has no [url] (or an empty one) and the article's
    [url] is absent, empty or the placeholder "#", the mapper returns a
    card without favicon, again without parsing anything. *)
Theorem placeholder_url_has_no_favicon clock a idx topic :
  truthy_opt (GNewsArticle.source a ≫= Source.url) = false →
  GNewsArticle.url a = None ∨ GNewsArticle.url a = Some ""
  ∨ GNewsArticle.url a = Some "#" →
  ∃ item, mapGNews clock a idx topic = Normal item
          ∧ NewsItem.favicon item = ""
          ∧ NewsCard.shows_favicon item = false
          ∧ (NewsItem.url item = "#" ∨ NewsItem.url item = "").
Proof.
  intros Hsrc Hurl.
  assert (domain_of (default Source.empty (GNewsArticle.source a))
            (default "#" (GNewsArticle.url a)) = Normal "") as Hd.
  { unfold domain_of.
    assert (hostname_of (default "#" (GNewsArticle.url a)) = Normal "")
      as Hh by (by destruct Hurl as [-> | [-> | ->]]).
    destruct (GNewsArticle.source a) as [src|]; simpl in *; [|done].
    destruct (Source.url src) as [s|]; simpl in *; [|done].
    by rewrite Hsrc. }
  unfold mapGNews. rewrite Hd. simpl. eexists. split; [done|]. simpl.
  split_and!; try done.
  destruct Hurl as [-> | [-> | ->]]; simpl; auto.
Qed.

(** X5: with a time value [t] for [publishedAt], the hour count is an
    integer that is at least 1 and is the rounded number of hours from
    [t] to now; it is exactly 1 as long as less than an hour and a half
    has passed, hence for every date in the future. *)
Theorem ageHours_of_valid_date clock publishedAt t :
  published_time clock publishedAt = Num t →
  ∃ h, ageHours_of clock publishedAt = Num h
       ∧ 1 ≤ h
       ∧ (h = 1 ↔ Date_now clock - t < 5400000)
       ∧ (5400000 ≤ Date_now clock - t →
          2 * (Date_now clock - t) - MS_PER_HOUR
          < 2 * MS_PER_HOUR * h ≤ 2 * (Date_now clock - t) + MS_PER_HOUR).
Proof.
  intros Ht. unfold ageHours_of. rewrite Ht. simpl.
  set (d := Date_now clock - t).
  set (q := (2 * d + MS_PER_HOUR) / (2 * MS_PER_HOUR)).
  assert (2 * d - MS_PER_HOUR < 2 * MS_PER_HOUR * q ≤ 2 * d + MS_PER_HOUR)
    as Hq.
  { apply (Math_round_div_nearest d MS_PER_HOUR q); [done|reflexivity]. }
  exists (Z.max 1 q). unfold MS_PER_HOUR in *.
  split; [done|]. split; [lia|]. split; [|intros Hd; lia].
  split; intros Hd; [|lia].
  destruct (Z.max_spec 1 q) as [[Hlt Hmax]|[Hle Hmax]]; lia.
Qed.

End MapperEdges.

Lemma source_url_is_the_domain_witness :
  ∃ item,
    mapGNews (rt := Fragment.runtime) Sample.clock Scenario.sourced_article
      0 "all" = Normal item
    ∧ NewsItem.favicon item = FAVICON_PREFIX +:+ "https://example.com"
    ∧ NewsItem.url item
      = default "#" (GNewsArticle.url Scenario.sourced_article)
    ∧ NewsItem.title item
      = default "Untitled" (GNewsArticle.title Scenario.sourced_article).
Proof.
  apply (source_url_is_the_domain (rt := Fragment.runtime) Sample.clock
           Scenario.sourced_article 0 "all"
           {| Source.name := Some "Example";
              Source.url := Some "https://example.com" |}
           "https://example.com");
    [reflexivity | reflexivity | discriminate].
Defined.

Lemma placeholder_url_has_no_favicon_witness :
  ∃ item,
    mapGNews (rt := Fragment.runtime) Sample.clock
      Scenario.placeholder_article 0 "all" = Normal item
    ∧ NewsItem.favicon item = ""
    ∧ NewsCard.shows_favicon item = false
    ∧ (NewsItem.url item = "#" ∨ NewsItem.url item = "").
Proof.
  apply (placeholder_url_has_no_favicon (rt := Fragment.runtime) Sample.clock
           Scenario.placeholder_article 0 "all");
    [reflexivity | right; right; reflexivity].
Defined.

Lemma ageHours_of_valid_date_witness :
  ∃ h, ageHours_of (rt := Fragment.runtime) Sample.clock
         (Some "2024-05-01T09:00:00Z") = Num h
       ∧ 1 ≤ h
       ∧ (h = 1 ↔ Date_now Sample.clock - 1714554000000 < 5400000)
       ∧ (5400000 ≤ Date_now Sample.clock - 1714554000000 →
          2 * (Date_now Sample.clock - 1714554000000) - MS_PER_HOUR
          < 2 * MS_PER_HOUR * h
            ≤ 2 * (Date_now Sample.clock - 1714554000000) + MS_PER_HOUR).
Proof.
  apply (ageHours_of_valid_date (rt := Fragment.runtime) Sample.clock
           (Some "2024-05-01T09:00:00Z") 1714554000000).
  reflexivity.
Defined.

Example four_hours_ago :
  ageHours_of (rt := Fragment.runtime) Sample.clock
    (Some "2024-05-01T09:00:00Z") = Num 4.
Proof. reflexivity. Qed.

(** ** FETCHER: a page is mapped as a whole *)

Lemma array_map_from_is_Normal {A B} (f : A → nat → Completion B)
    (g : A → bool) i arts :
  (∀ a j, is_Normal (f a j) = g a) →
  is_Normal (array_map_from f i arts) = forallb g arts.
Proof.
  intros Hfg. revert i. induction arts as [|a arts IH]; intros i; [done|].
  simpl. rewrite <- (Hfg a i), <- (IH (S i)).
  destruct (f a i) as [b|e]; simpl; [|done].
  by destruct (array_map_from f (S i) arts).
Qed.

Lemma array_map_from_pointwise {A B} (f : A → nat → Completion B)
    (P : A → B → Prop) i arts data :
  (∀ a j b, f a j = Normal b → P a b) →
  array_map_from f i arts = Normal data →
  Forall2 P arts data.
Proof.
  intros HP. revert i data.
  induction arts as [|a arts IH]; intros i data; simpl.
  - intros [= <-]. constructor.
  - destruct (f a i) as [b|e] eqn:Hb; simpl; [|done].
    destruct (array_map_from f (S i) arts) as [bs|e] eqn:Hbs; simpl; [|done].
    intros [= <-]. constructor; [by eapply HP|by eapply IH].
Qed.

(** X6: for a success whose body holds an array of articles, the fetch
    returns exactly when the domain of every article resolves - one
    article whose URL does not parse loses the page - and what it
    returns has one card per article, in order, with the article's
    title, url and image (or their defaults) and the label of the
    thread. *)
Theorem fetch_is_all_or_nothing {rt : Runtime} token page thread r res arts :
  token ≠ "" →
  outcome r = Normal res → Response.ok res = true →
  Response.json res = Normal (json_object (articles_array arts)) →
  let result := resume (fetchGNews token page thread) r in
  is_Normal result
  = forallb (λ a, is_Normal
                    (domain_of (default Source.empty (GNewsArticle.source a))
                               (default "#" (GNewsArticle.url a)))) arts
  ∧ (∀ data, result = Normal data →
       length data = length arts
       ∧ Forall2 (λ a item,
                    NewsItem.title item
                    = default "Untitled" (GNewsArticle.title a)
                    ∧ NewsItem.url item = default "#" (GNewsArticle.url a)
                    ∧ NewsItem.thumbnail item = GNewsArticle.image a
                    ∧ NewsItem.thread item = or_str thread "all")
           arts data).
Proof.
  intros Ht%truthy_true_iff Hres Hok Hjson. unfold fetchGNews.
  rewrite Ht. simpl. rewrite Hres. simpl. rewrite Hok. simpl.
  rewrite Hjson. simpl. unfold array_map. split.
  - apply array_map_from_is_Normal. intros a j. unfold mapGNews.
    by destruct (domain_of _ _).
  - intros data Hdata. split; [by eapply array_map_from_length|].
    eapply array_map_from_pointwise; [|exact Hdata].
    intros a j b Hb. simpl in Hb. unfold mapGNews in Hb.
    destruct (domain_of _ _) as [d|e]; simpl in Hb; [|done].
    by injection Hb as <-.
Qed.

Lemma fetch_is_all_or_nothing_witness :
  let result :=
    resume (fetchGNews (rt := Fragment.runtime) DEFAULT_TOKEN 1 None)
      (Sample.page_of [Sample.good_article; Sample.malformed_article]) in
  is_Normal result
  = forallb (λ a, is_Normal
                    (domain_of (rt := Fragment.runtime)
                       (default Source.empty (GNewsArticle.source a))
                       (default "#" (GNewsArticle.url a))))
      [Sample.good_article; Sample.malformed_article]
  ∧ (∀ data, result = Normal data →
       length data
       = length [Sample.good_article; Sample.malformed_article]
       ∧ Forall2 (λ a item,
                    NewsItem.title item
                    = default "Untitled" (GNewsArticle.title a)
                    ∧ NewsItem.url item = default "#" (GNewsArticle.url a)
                    ∧ NewsItem.thumbnail item = GNewsArticle.image a
                    ∧ NewsItem.thread item = or_str None "all")
           [Sample.good_article; Sample.malformed_article] data).
Proof.
  apply (fetch_is_all_or_nothing (rt := Fragment.runtime) DEFAULT_TOKEN 1
           None
           (Sample.page_of [Sample.good_article; Sample.malformed_article])
           {| Response.status := 200;
              Response.json :=
                Normal (json_object
                          (articles_array [Sample.good_article;
                                           Sample.malformed_article])) |});
    first [discriminate | reflexivity].
Defined.

(** ** FEED: failures of the current load *)

(** A transport failure is what the fetch throws. *)
Lemma fetchGNews_transport_failure {rt : Runtime} token page thread r e :
  token ≠ "" → outcome r = Throw e →
  resume (fetchGNews token page thread) r = Throw e.
Proof.
  intros Ht%truthy_true_iff Hr. unfold fetchGNews. rewrite Ht. simpl.
  by rewrite Hr.
Qed.

(** X7: whatever the fetch of a load that is neither superseded nor
    settled throws - a transport failure, a status, a body that is not
    JSON, an article that cannot be mapped - its message becomes the
    error, [loading] is false, and the list, the page and [hasMore] are
    what they were. *)
Theorem failed_load_shows_message {rt : Runtime} (env : Env)
    (c : NewsFeed.t) i l r e :
  NewsFeed.loads c !! i = Some l →
  Load.cancelled l = false → Load.settled l = false →
  resume (fetchGNews (GNEWS_TOKEN env) (Load.page l) (Load.thread l)) r
    = Throw e →
  let c' := NewsFeed.step env c (NewsFeed.Settle i r) in
  Feed.error (NewsFeed.cells c') = Some (message e)
  ∧ Feed.loading (NewsFeed.cells c') = false
  ∧ Feed.items (NewsFeed.cells c') = Feed.items (NewsFeed.cells c)
  ∧ Feed.page (NewsFeed.cells c') = Feed.page (NewsFeed.cells c)
  ∧ Feed.hasMore (NewsFeed.cells c') = Feed.hasMore (NewsFeed.cells c)
  ∧ NewsFeed.thread c' = NewsFeed.thread c.
Proof.
  intros Hl Hc Hs Hfetch. simpl.
  rewrite (settle_pending env i r c l Hl Hs). simpl.
  by rewrite Hc, Hfetch, load_resume_threw.
Qed.

Lemma failed_load_shows_message_witness :
  let c' := NewsFeed.step (rt := Fragment.runtime) ∅ Sample.mounted
              (NewsFeed.Settle 0 Scenario.offline) in
  Feed.error (NewsFeed.cells c')
    = Some (message (TypeError "Failed to fetch"))
  ∧ Feed.loading (NewsFeed.cells c') = false
  ∧ Feed.items (NewsFeed.cells c') = Feed.items (NewsFeed.cells Sample.mounted)
  ∧ Feed.page (NewsFeed.cells c') = Feed.page (NewsFeed.cells Sample.mounted)
  ∧ Feed.hasMore (NewsFeed.cells c')
    = Feed.hasMore (NewsFeed.cells Sample.mounted)
  ∧ NewsFeed.thread c' = NewsFeed.thread Sample.mounted.
Proof.
  apply (failed_load_shows_message (rt := Fragment.runtime) ∅ Sample.mounted
           0%nat (Load.start 1 None) Scenario.offline
           (TypeError "Failed to fetch"));
    reflexivity.
Defined.

(** ** FEED: what holds in every state of a mounted feed *)

Section FeedInvariants.
Context {rt : Runtime}.
Variable env : Env.
Import NewsFeed Invariant FeedFlags Requests.

Lemma settle_page i r c :
  Feed.page (cells (settle env i r c)) = Feed.page (cells c).
Proof.
  unfold settle. destruct (loads c !! i) as [l|]; [|done].
  destruct (Load.settled l); [done|]. simpl.
  destruct (Load.cancelled l); [by rewrite load_resume_cancelled|].
  by destruct (resume _ r).
Qed.

Lemma settle_thread i r c : thread (settle env i r c) = thread c.
Proof.
  unfold settle. destruct (loads c !! i) as [l|]; [|done].
  by destruct (Load.settled l).
Qed.

Lemma page_positive_step c e :
  1 ≤ Feed.page (cells c) → 1 ≤ Feed.page (cells (step env c e)).
Proof.
  intros Hp. destruct e as [t| |i r]; simpl.
  - case_decide; [done|]. by rewrite (proj2 (change_thread_cells t c)).
  - destruct (Feed.load_more_visible (cells c)); [|done].
    unfold load_more, rerender. simpl. case_decide; simpl; lia.
  - by rewrite settle_page.
Qed.

Lemma page_positive_run c events :
  1 ≤ Feed.page (cells c) → 1 ≤ Feed.page (cells (run env c events)).
Proof.
  revert c. induction events as [|e events IH]; intros c Hp; [done|].
  simpl. by apply IH, page_positive_step.
Qed.

Lemma flags_ok_mount t : flags_ok (mount t).
Proof. exists [], (Load.start 1 t). by split_and!. Qed.

Lemma flags_ok_change_thread t c : flags_ok (change_thread t c).
Proof.
  unfold change_thread, rerender. simpl. case_decide.
  - eexists _, _. by split_and!.
  - eexists _, _. by split_and!.
Qed.

Lemma flags_ok_load_more c :
  Feed.hasMore (cells c) = true → flags_ok (load_more c).
Proof.
  intros Hm. unfold load_more, rerender. simpl. case_decide; [lia|].
  eexists _, _. simpl. by split_and!; [done|done|done|rewrite Hm].
Qed.

Lemma flags_ok_settle i r c :
  loads_ok c → flags_ok c → flags_ok (settle env i r c).
Proof.
  intros (older & cur & Hl & Hold & Hcur & _ & _)
         (older' & cur' & Hl' & Hload & Herr & Hmore).
  rewrite Hl in Hl'. apply app_inj_tail in Hl' as [<- <-].
  unfold settle. destruct (loads c !! i) as [l|] eqn:Hi;
    [|by exists older, cur].
  destruct (Load.settled l) eqn:Hs; [by exists older, cur|].
  rewrite Hl in Hi.
  destruct (decide (i < length older)%nat) as [Hlt|Hge].
  - rewrite lookup_app_l in Hi by done.
    rewrite (Forall_lookup_1 _ _ _ _ Hold Hi), load_resume_cancelled.
    exists (<[i := Load.settle l]> older), cur. simpl.
    split_and!; try done. by rewrite Hl, insert_app_l.
  - rewrite lookup_app_r in Hi by lia.
    destruct (i - length older)%nat as [|k] eqn:Hk; [|done].
    simpl in Hi. injection Hi as <-. rewrite Hcur.
    exists older, (Load.settle cur). simpl. split.
    { rewrite Hl. replace i with (length older + 0)%nat by lia.
      by rewrite insert_app_r. }
    by destruct (resume _ r).
Qed.

Lemma flags_ok_step c e : loads_ok c → flags_ok c → flags_ok (step env c e).
Proof.
  intros Hl Hf. destruct e as [t| |i r]; simpl.
  - case_decide; [done|]. apply flags_ok_change_thread.
  - destruct (Feed.load_more_visible (cells c)) eqn:Hv; [|done].
    apply flags_ok_load_more. unfold Feed.load_more_visible in Hv.
    by apply andb_prop in Hv as [_ Hm].
  - by apply flags_ok_settle.
Qed.

Lemma flags_ok_run c events :
  loads_ok c → flags_ok c → flags_ok (run env c events).
Proof.
  revert c. induction events as [|e events IH]; intros c Hl Hf; [done|].
  simpl. apply IH; [by apply loads_ok_step|by apply flags_ok_step].
Qed.

(** An event that keeps the thread only ever appends to the list. *)
Lemma step_appends c e :
  keeps_thread (thread c) e →
  Feed.items (cells c) `prefix_of` Feed.items (cells (step env c e))
  ∧ thread (step env c e) = thread c.
Proof.
  intros Hk. destruct e as [t| |i r]; simpl in *.
  - by rewrite decide_True.
  - destruct (Feed.load_more_visible (cells c)); [|done].
    unfold load_more, rerender. simpl. by case_decide.
  - split; [|apply settle_thread]. unfold settle.
    destruct (loads c !! i) as [l|]; [|done].
    destruct (Load.settled l); [done|]. simpl.
    destruct (Load.cancelled l); [by rewrite load_resume_cancelled|].
    destruct (resume _ r) as [data|e]; simpl; [|done].
    by apply prefix_app_r.
Qed.

(** With nothing more to load, an event that keeps the thread changes
    no cell. *)
Lemma step_exhausted c e :
  loads_ok c → flags_ok c →
  Feed.hasMore (cells c) = false →
  keeps_thread (thread c) e →
  cells (step env c e) = cells c.
Proof.
  intros (older & cur & Hl & Hold & _)
         (older' & cur' & Hl' & Hload & _ & Hmore) Hm Hk.
  rewrite Hl in Hl'. apply app_inj_tail in Hl' as [<- <-].
  destruct e as [t| |i r]; simpl in *.
  - by rewrite decide_True.
  - unfold Feed.load_more_visible. rewrite Hm. by rewrite andb_false_r.
  - apply settle_unchanged_cells. intros l Hi Hs. rewrite Hl in Hi.
    destruct (decide (i < length older)%nat) as [Hlt|Hge].
    + rewrite lookup_app_l in Hi by done.
      by eapply (Forall_lookup_1 _ _ _ _ Hold Hi).
    + rewrite lookup_app_r in Hi by lia.
      destruct (i - length older)%nat as [|k]; [|done].
      simpl in Hi. injection Hi as <-.
      rewrite (Hmore Hm) in Hload. by destruct (Load.settled cur).
Qed.

End FeedInvariants.

(** X8: in every state of a mounted feed exactly one load is live, the
    latest one: every earlier load is cancelled, the latest is not, and
    it is the load of the page and the thread that are rendered; the
    page counter is at least 1. *)
Theorem latest_load_is_the_live_one {rt : Runtime} (env : Env)
    (th : option string) (events : list NewsFeed.Event) :
  let c := NewsFeed.run env (NewsFeed.mount th) events in
  1 ≤ Feed.page (NewsFeed.cells c)
  ∧ ∃ older cur,
      NewsFeed.loads c = older ++ [cur]
      ∧ Forall (λ l, Load.cancelled l = true) older
      ∧ Load.cancelled cur = false
      ∧ Load.page cur = Feed.page (NewsFeed.cells c)
      ∧ Load.thread cur = NewsFeed.thread c.
Proof.
  intros c. split.
  - by apply page_positive_run.
  - apply (loads_ok_run env (NewsFeed.mount th) events), loads_ok_mount.
Qed.


(** X10: as long as the thread stays the same, the accumulated list only
    grows at its end: the list of any state is a prefix of the list of
    every later state. *)
Theorem items_are_append_only {rt : Runtime} (env : Env)
    (c : NewsFeed.t) (events : list NewsFeed.Event) :
  Forall (Requests.keeps_thread (NewsFeed.thread c)) events →
  Feed.items (NewsFeed.cells c)
    `prefix_of` Feed.items (NewsFeed.cells (NewsFeed.run env c events))
  ∧ NewsFeed.thread (NewsFeed.run env c events) = NewsFeed.thread c.
Proof.
  revert c. induction events as [|e events IH]; intros c Hev; [done|].
  apply Forall_cons in Hev as [He Hev]. simpl.
  destruct (step_appends env c e He) as [Hpre Hth].
  rewrite <- Hth in Hev. destruct (IH _ Hev) as [Hpre' Hth'].
  split; [by etrans|congruence].
Qed.

Lemma items_are_append_only_witness :
  Feed.items (NewsFeed.cells Sample.mounted)
    `prefix_of`
    Feed.items
      (NewsFeed.cells
         (NewsFeed.run (rt := Fragment.runtime) ∅ Sample.mounted
            Sample.session))
  ∧ NewsFeed.thread
      (NewsFeed.run (rt := Fragment.runtime) ∅ Sample.mounted Sample.session)
    = NewsFeed.thread Sample.mounted.
Proof.
  apply (items_are_append_only (rt := Fragment.runtime) ∅ Sample.mounted
           Sample.session).
  repeat constructor.
Defined.

(** X11: once a page came back short ([hasMore] false) the session is
    over: until the thread changes, no click and no completion of any
    fetch changes a cell. *)
Theorem short_page_ends_the_session {rt : Runtime} (env : Env)
    (th : option string) (events later : list NewsFeed.Event) :
  let c := NewsFeed.run env (NewsFeed.mount th) events in
  Feed.hasMore (NewsFeed.cells c) = false →
  Forall (Requests.keeps_thread (NewsFeed.thread c)) later →
  NewsFeed.cells (NewsFeed.run env c later) = NewsFeed.cells c
  ∧ Feed.load_more_visible (NewsFeed.cells (NewsFeed.run env c later))
    = false.
Proof.
  intros c Hm Hlater.
  assert (Invariant.loads_ok c) as Hl
    by apply loads_ok_run, loads_ok_mount.
  assert (FeedFlags.flags_ok c) as Hf
    by (apply flags_ok_run; [apply loads_ok_mount|apply flags_ok_mount]).
  assert (NewsFeed.cells (NewsFeed.run env c later) = NewsFeed.cells c)
    as Hcells.
  { clearbody c. revert c Hm Hlater Hl Hf.
    induction later as [|e later IH]; intros c Hm Hlater Hl Hf; [done|].
    apply Forall_cons in Hlater as [He Hlater]. simpl.
    pose proof (step_exhausted env c e Hl Hf Hm He) as Hstep.
    pose proof (proj2 (step_appends env c e He)) as Hth.
    rewrite IH; [done|by rewrite Hstep|by rewrite Hth
                |by apply loads_ok_step|by apply flags_ok_step]. }
  split; [done|]. rewrite Hcells. unfold Feed.load_more_visible.
  rewrite Hm. apply andb_false_r.
Qed.

Lemma short_page_ends_the_session_witness :
  let c := NewsFeed.run (rt := Fragment.runtime) ∅ (NewsFeed.mount None)
             Sample.session in
  let later := [ NewsFeed.ClickLoadMore;
                 NewsFeed.Settle 0 (Sample.page_of [Sample.good_article]);
                 NewsFeed.Settle 1 (Sample.page_of [Sample.good_article]) ] in
  NewsFeed.cells (NewsFeed.run (rt := Fragment.runtime) ∅ c later)
  = NewsFeed.cells c
  ∧ Feed.load_more_visible
      (NewsFeed.cells (NewsFeed.run (rt := Fragment.runtime) ∅ c later))
    = false.
Proof.
  apply (short_page_ends_the_session (rt := Fragment.runtime) ∅ None
           Sample.session
           [ NewsFeed.ClickLoadMore;
             NewsFeed.Settle 0 (Sample.page_of [Sample.good_article]);
             NewsFeed.Settle 1 (Sample.page_of [Sample.good_article]) ]).
  - vm_compute. reflexivity.
  - repeat constructor.
Defined.

(** X12: a page that failed is not fetched again.  When the load of
    page [p] fails while more is expected, the error shows and "Load
    more" is offered; the click clears the error and starts the load of
    page [p + 1] of the same thread, the list being what it was. *)
Theorem failed_page_is_skipped {rt : Runtime} (env : Env)
    (th : option string) (events : list NewsFeed.Event) i l r e :
  let c := NewsFeed.run env (NewsFeed.mount th) events in
  NewsFeed.loads c !! i = Some l →
  Load.cancelled l = false → Load.settled l = false →
  resume (fetchGNews (GNEWS_TOKEN env) (Load.page l) (Load.thread l)) r
    = Throw e →
  Feed.hasMore (NewsFeed.cells c) = true →
  let c1 := NewsFeed.step env c (NewsFeed.Settle i r) in
  let c2 := NewsFeed.step env c1 NewsFeed.ClickLoadMore in
  Feed.error (NewsFeed.cells c1) = Some (message e)
  ∧ Feed.load_more_visible (NewsFeed.cells c1) = true
  ∧ Feed.page (NewsFeed.cells c2) = Load.page l + 1
  ∧ last (NewsFeed.loads c2)
    = Some (Load.start (Load.page l + 1) (NewsFeed.thread c))
  ∧ Feed.error (NewsFeed.cells c2) = None
  ∧ Feed.loading (NewsFeed.cells c2) = true
  ∧ Feed.items (NewsFeed.cells c2) = Feed.items (NewsFeed.cells c).
Proof.
  intros c Hi Hc Hs Hfetch Hm c1 c2.
  assert (Invariant.loads_ok c) as (older & cur & Hl & Hold & _ & Hp & _)
    by apply loads_ok_run, loads_ok_mount.
  assert (l = cur) as ->.
  { rewrite Hl in Hi.
    destruct (decide (i < length older)%nat) as [Hlt|Hge].
    - rewrite lookup_app_l in Hi by done.
      rewrite (Forall_lookup_1 _ _ _ _ Hold Hi) in Hc. done.
    - rewrite lookup_app_r in Hi by lia.
      destruct (i - length older)%nat as [|k]; [|done].
      simpl in Hi. by injection Hi. }
  destruct (failed_load_shows_message env c i cur r e Hi Hc Hs Hfetch)
    as (Herr & Hload & Hitems & Hpage & Hmore & Hth).
  fold c1 in Herr, Hload, Hitems, Hpage, Hmore, Hth.
  assert (Feed.load_more_visible (NewsFeed.cells c1) = true) as Hv.
  { unfold Feed.load_more_visible. by rewrite Hload, Hmore, Hm. }
  unfold c2. simpl. rewrite Hv.
  unfold NewsFeed.load_more, NewsFeed.rerender. simpl.
  case_decide; [lia|]. simpl.
  rewrite Hpage, Hp, Hth, Hitems. split_and!; try done. apply last_snoc.
Qed.

Lemma failed_page_is_skipped_witness :
  let c := NewsFeed.run (rt := Fragment.runtime) ∅ (NewsFeed.mount None) [] in
  let c1 := NewsFeed.step (rt := Fragment.runtime) ∅ c
              (NewsFeed.Settle 0 Scenario.offline) in
  let c2 := NewsFeed.step (rt := Fragment.runtime) ∅ c1
              NewsFeed.ClickLoadMore in
  Feed.error (NewsFeed.cells c1)
    = Some (message (TypeError "Failed to fetch"))
  ∧ Feed.load_more_visible (NewsFeed.cells c1) = true
  ∧ Feed.page (NewsFeed.cells c2) = Load.page (Load.start 1 None) + 1
  ∧ last (NewsFeed.loads c2)
    = Some (Load.start (Load.page (Load.start 1 None) + 1)
              (NewsFeed.thread c))
  ∧ Feed.error (NewsFeed.cells c2) = None
  ∧ Feed.loading (NewsFeed.cells c2) = true
  ∧ Feed.items (NewsFeed.cells c2) = Feed.items (NewsFeed.cells c).
Proof.
  apply (failed_page_is_skipped (rt := Fragment.runtime) ∅ None [] 0%nat
           (Load.start 1 None) Scenario.offline
           (TypeError "Failed to fetch"));
    reflexivity.
Defined.

(** X13: a change of thread starts one load when the page was 1, and two
    when it was not: the first, for the old page of the new thread, is
    cancelled in the render that follows, the second is the load of
    page 1.  The loads started before are kept in place. *)
Theorem thread_change_starts_loads {rt : Runtime} (env : Env)
    (c : NewsFeed.t) (t : option string) :
  t ≠ NewsFeed.thread c →
  let c' := NewsFeed.step env c (NewsFeed.SetThread t) in
  let p := Feed.page (NewsFeed.cells c) in
  drop (length (NewsFeed.loads c)) (NewsFeed.loads c')
  = (if decide (p = 1) then [Load.start 1 t]
     else [Load.cancel (Load.start p t); Load.start 1 t])
  ∧ take (length (NewsFeed.loads c)) (NewsFeed.loads c')
    = NewsFeed.loads (NewsFeed.cleanup c).
Proof.
  intros Hne. simpl. rewrite decide_False by done.
  unfold NewsFeed.change_thread, NewsFeed.rerender. simpl.
  pose proof (length_alter Load.cancel (NewsFeed.loads c)
                (pred (length (NewsFeed.loads c)))) as Hlen.
  destruct (decide (1 = Feed.page (NewsFeed.cells c))) as [Hp|Hp].
  - rewrite decide_True by done. simpl.
    remember (alter Load.cancel (pred (length (NewsFeed.loads c)))
                (NewsFeed.loads c)) as old.
    rewrite <- Hlen, drop_app_length, take_app_length.
    by rewrite <- Hp.
  - rewrite decide_False by done. simpl.
    remember (alter Load.cancel (pred (length (NewsFeed.loads c)))
                (NewsFeed.loads c)) as old.
    rewrite length_app. simpl.
    replace (pred (length old + 1)) with (length old + 0)%nat by lia.
    rewrite alter_app_r. simpl. rewrite <- app_assoc. simpl.
    by rewrite <- Hlen, drop_app_length, take_app_length.
Qed.

Lemma thread_change_starts_loads_witness :
  let c := NewsFeed.load_more Sample.mounted in
  let c' := NewsFeed.step (rt := Fragment.runtime) ∅ c
              (NewsFeed.SetThread (Some "world")) in
  let p := Feed.page (NewsFeed.cells c) in
  drop (length (NewsFeed.loads c)) (NewsFeed.loads c')
  = (if decide (p = 1) then [Load.start 1 (Some "world")]
     else [Load.cancel (Load.start p (Some "world"));
           Load.start 1 (Some "world")])
  ∧ take (length (NewsFeed.loads c)) (NewsFeed.loads c')
    = NewsFeed.loads (NewsFeed.cleanup c).
Proof.
  apply (thread_change_starts_loads (rt := Fragment.runtime) ∅
           (NewsFeed.load_more Sample.mounted) (Some "world")).
  discriminate.
Defined.

(** ** THREAD TABS and APP ROOT *)

Lemma thread_of_inj t t' :
  ThreadTabs.thread_of t = ThreadTabs.thread_of t' → t = t'.
Proof.
  unfold ThreadTabs.thread_of.
  destruct (String.eqb_spec t "all"), (String.eqb_spec t' "all");
    congruence.
Qed.

(** X14: the tabs are nine distinct names; whatever tab is clicked, the
    thread it sets selects that tab and no other; and before any click
    (thread null) the selected tab is "all". *)
Theorem one_tab_is_selected :
  (∀ t t', ThreadTabs.selected (ThreadTabs.thread_of t) t' = true ↔ t' = t)
  ∧ (∀ t', ThreadTabs.selected None t' = true ↔ t' = "all")
  ∧ NoDup ThreadTabs.tabs
  ∧ length ThreadTabs.tabs = 9%nat.
Proof.
  assert (∀ t t',
    ThreadTabs.selected (ThreadTabs.thread_of t) t' = true ↔ t' = t) as Hsel.
  { intros t t'. unfold ThreadTabs.selected. rewrite bool_decide_eq_true.
    split; [by intros ?%thread_of_inj|by intros ->]. }
  split_and!; [done|apply (Hsel "all")| |done].
  apply (bool_decide_unpack _). by vm_compute.
Qed.

Lemma tab_is_not_empty t : t ∈ ThreadTabs.tabs → t ≠ "".
Proof.
  intros Ht ->. revert Ht. apply (bool_decide_eq_false_1 _). by vm_compute.
Qed.

Section AppProps.
Context {rt : Runtime}.
Variable env : Env.

Lemma step_SetThread_thread c t :
  NewsFeed.thread (NewsFeed.step env c (NewsFeed.SetThread t)) = t.
Proof.
  simpl. case_decide; [done|].
  unfold NewsFeed.change_thread, NewsFeed.rerender. simpl. by case_decide.
Qed.

(** What an event of the page is for the feed. *)
Lemma app_step_feed a e :
  App.feed (App.step env a e) = App.feed a
  ∨ ∃ e', App.feed (App.step env a e) = NewsFeed.step env (App.feed a) e'
          ∧ match e' with
            | NewsFeed.SetThread t =>
                ∃ tab, tab ∈ ThreadTabs.tabs ∧ t = ThreadTabs.thread_of tab
            | _ => Requests.keeps_thread (NewsFeed.thread (App.feed a)) e'
            end.
Proof.
  destruct e as [tab| |i r|]; cbn [App.step].
  - case_bool_decide; [|by left]. right.
    exists (NewsFeed.SetThread (ThreadTabs.thread_of tab)).
    split; [reflexivity|]. by exists tab.
  - right. exists NewsFeed.ClickLoadMore. by split.
  - right. exists (NewsFeed.Settle i r). by split.
  - by left.
Qed.

(** The thread of the feed is the thread of a tab, and the loads are as
    in every mounted feed. *)
Lemma app_feed_ok b events :
  let a := App.run env (App.mount b) events in
  Invariant.loads_ok (App.feed a)
  ∧ ∃ tab, tab ∈ ThreadTabs.tabs
           ∧ NewsFeed.thread (App.feed a) = ThreadTabs.thread_of tab.
Proof.
  cbv zeta.
  assert (∀ a,
    Invariant.loads_ok (App.feed a)
    ∧ (∃ tab, tab ∈ ThreadTabs.tabs
              ∧ NewsFeed.thread (App.feed a) = ThreadTabs.thread_of tab) →
    Invariant.loads_ok (App.feed (App.run env a events))
    ∧ (∃ tab, tab ∈ ThreadTabs.tabs
              ∧ NewsFeed.thread (App.feed (App.run env a events))
                = ThreadTabs.thread_of tab)) as Hrun.
  { induction events as [|e events IH]; intros a Ha; [done|].
    cbn [App.run foldl]. apply IH. destruct Ha as [Hl (tab & Htab & Hth)].
    destruct (app_step_feed a e) as [->|(e' & -> & He')]; [by eauto|].
    split; [by apply loads_ok_step|].
    destruct e' as [t| |i r].
    - destruct He' as (tab' & Htab' & ->). exists tab'.
      split; [done|]. apply step_SetThread_thread.
    - exists tab. split; [done|]. rewrite <- Hth.
      by apply (step_appends env (App.feed a) NewsFeed.ClickLoadMore).
    - exists tab. split; [done|]. rewrite <- Hth.
      by apply (step_appends env (App.feed a) (NewsFeed.Settle i r)). }
  apply Hrun. split; [apply loads_ok_mount|].
  exists "all". split; [|done]. by apply list_elem_of_here.
Qed.

End AppProps.

(** X15: in every state of the page, the thread of the feed is the one
    of a tab, that tab alone is drawn as selected, the cards carry its
    name as their label, and the request of the live load asks for the
    rendered page with the resolved token, [lang=en] and [max=10], and
    names the tab as [topic] unless the tab is "all". *)
Theorem app_requests_the_selected_tab {rt : Runtime} (env : Env)
    (b : Theme.Browser) (events : list App.Event) :
  let a := App.run env (App.mount b) events in
  ∃ tab older cur,
    tab ∈ ThreadTabs.tabs
    ∧ NewsFeed.thread (App.feed a) = ThreadTabs.thread_of tab
    ∧ (∀ t', ThreadTabs.selected (NewsFeed.thread (App.feed a)) t' = true
             ↔ t' = tab)
    ∧ or_str (NewsFeed.thread (App.feed a)) "all" = tab
    ∧ NewsFeed.loads (App.feed a) = older ++ [cur]
    ∧ Load.cancelled cur = false
    ∧ Requests.of_load env cur
      = Some {| endpoint := ENDPOINT;
                params :=
                  [("token", GNEWS_TOKEN env); ("lang", "en"); ("max", "10");
                   ("page",
                    pretty (Feed.page (NewsFeed.cells (App.feed a))))]
                  ++ (if decide (tab = "all") then []
                      else [("topic", tab)]) |}.
Proof.
  intros a.
  destruct (app_feed_ok env b events)
    as [(older & cur & Hl & _ & Hcur & Hp & Ht) (tab & Htab & Hth)].
  fold a in Hl, Hp, Ht, Hth.
  exists tab, older, cur. split_and!; try done.
  - intros t'. rewrite Hth.
    apply (proj1 one_tab_is_selected tab t').
  - rewrite Hth. unfold ThreadTabs.thread_of.
    destruct (String.eqb_spec tab "all") as [->|]; simpl; [done|].
    apply tab_is_not_empty, truthy_true_iff in Htab. by rewrite Htab.
  - unfold Requests.of_load, fetchGNews.
    rewrite (GNEWS_TOKEN_truthy env), Hp, Ht, Hth. simpl.
    unfold ThreadTabs.thread_of.
    replace (pretty PAGE_SIZE) with "10" by (by vm_compute).
    destruct (String.eqb_spec tab "all") as [->|Hne]; simpl; [done|].
    apply tab_is_not_empty, truthy_true_iff in Htab. rewrite Htab.
    by rewrite decide_False.
Qed.

(** ** THEME CONTEXT *)

Section ThemeProps.
Import Theme.

Lemma apply_synced th b : synced {| theme := th; browser := apply th b |}.
Proof.
  split; simpl.
  - by rewrite lookup_insert_eq.
  - destruct th; simpl.
    + rewrite elem_of_difference, elem_of_singleton.
      split; [by intros [_ ?]|done].
    + rewrite elem_of_union, elem_of_singleton.
      split; [done|intros _; by right].
Qed.

Lemma apply_same_elsewhere th b : same_elsewhere b (apply th b).
Proof.
  split; simpl.
  - intros k Hk. by rewrite lookup_insert_ne.
  - intros cls Hcls. destruct th; simpl.
    + rewrite elem_of_difference, elem_of_singleton.
      split; [by intros [? _]|by intros ?; split].
    + rewrite elem_of_union, elem_of_singleton.
      split; [by intros [?|?]|by left].
Qed.

Lemma same_elsewhere_trans b1 b2 b3 :
  same_elsewhere b1 b2 → same_elsewhere b2 b3 → same_elsewhere b1 b3.
Proof.
  intros [Hk Hc] [Hk' Hc']. split.
  - intros k Hne. by rewrite Hk', Hk.
  - intros cls Hne. by rewrite Hc', Hc.
Qed.

Lemma setTheme_synced th p : synced p → synced (setTheme th p).
Proof.
  intros Hp. unfold setTheme. case_decide; [done|]. apply apply_synced.
Qed.

Lemma setTheme_same_elsewhere th p b :
  same_elsewhere b (browser p) → same_elsewhere b (browser (setTheme th p)).
Proof.
  intros Hp. unfold setTheme. case_decide; [done|]. simpl.
  eapply same_elsewhere_trans; [exact Hp|apply apply_same_elsewhere].
Qed.

Lemma mount_theme b :
  theme (mount b) = default light (of_stored (localStorage b !! "theme")).
Proof.
  unfold mount. destruct (of_stored _) as [th|]; [|done].
  unfold setTheme. simpl. by case_decide.
Qed.

Lemma mount_synced b : synced (mount b).
Proof.
  unfold mount. destruct (of_stored _) as [th|].
  - apply setTheme_synced, apply_synced.
  - apply apply_synced.
Qed.

Lemma mount_same_elsewhere b : same_elsewhere b (browser (mount b)).
Proof.
  unfold mount. destruct (of_stored _) as [th|].
  - apply setTheme_same_elsewhere, apply_same_elsewhere.
  - apply apply_same_elsewhere.
Qed.

Lemma toggle_twice p : synced p → toggle (toggle p) = p.
Proof.
  destruct p as [th [cl st]]. intros [Hst Hcl]. simpl in *.
  unfold toggle, setTheme. simpl.
  destruct th; simpl; f_equal; unfold apply; simpl; f_equal.
  - apply set_eq. intros x.
    rewrite elem_of_difference, elem_of_union, elem_of_singleton.
    split; [by intros [[?|?] ?]|].
    intros Hx. split; [by left|]. intros ->. by apply Hcl in Hx.
  - rewrite insert_insert_eq. by apply insert_id.
  - apply set_eq. intros x.
    rewrite elem_of_union, elem_of_difference, elem_of_singleton.
    split; [intros [[? _]| ->]; [done|by apply Hcl]|].
    intros Hx. destruct (decide (x = "dark")); [by right|by left].
  - rewrite insert_insert_eq. by apply insert_id.
Qed.

End ThemeProps.

(** X16: at mount the provider adopts the stored value when it is exactly
    "dark" or "light" and is light otherwise; afterwards the storage
    holds the name of the theme under "theme", the document has the
    class "dark" exactly when the theme is dark, and no other key or
    class was touched. *)
Theorem theme_mount_adopts_stored (b : Theme.Browser) :
  let p := Theme.mount b in
  let stored := Theme.localStorage b !! "theme" in
  (Theme.theme p = Theme.dark ↔ stored = Some "dark")
  ∧ (Theme.theme p = Theme.light ↔ stored ≠ Some "dark")
  ∧ Theme.localStorage (Theme.browser p) !! "theme"
    = Some (Theme.name (Theme.theme p))
  ∧ ("dark" ∈ Theme.classList (Theme.browser p)
     ↔ Theme.theme p = Theme.dark)
  ∧ (∀ k, k ≠ "theme" →
       Theme.localStorage (Theme.browser p) !! k
       = Theme.localStorage b !! k)
  ∧ (∀ cls, cls ≠ "dark" →
       cls ∈ Theme.classList (Theme.browser p) ↔ cls ∈ Theme.classList b).
Proof.
  intros p stored.
  assert (Theme.theme p = Theme.dark ↔ stored = Some "dark") as Hdark.
  { unfold p. rewrite mount_theme. fold stored.
    destruct stored as [s|]; simpl; [|done].
    destruct (String.eqb_spec s "dark") as [->|Hd]; simpl; [done|].
    destruct (String.eqb_spec s "light"); simpl;
      (split; [done|by intros [= ->]]). }
  destruct (mount_synced b) as [Hst Hcl].
  destruct (mount_same_elsewhere b) as [Hk Hc].
  split_and!; try done.
  rewrite <- Hdark. destruct (Theme.theme p); split; done.
Qed.

Section AppThemeProps.
Context {rt : Runtime}.
Variable env : Env.

Lemma app_provider_ok b (a : App.t) events :
  Theme.synced (App.provider a) →
  Theme.same_elsewhere b (Theme.browser (App.provider a)) →
  Theme.synced (App.provider (App.run env a events))
  ∧ Theme.same_elsewhere b
      (Theme.browser (App.provider (App.run env a events))).
Proof.
  revert a. induction events as [|e events IH]; intros a Hs He; [done|].
  cbn [App.run foldl]. apply IH.
  - destruct e as [tab| |i r|]; cbn [App.step]; try done.
    + by case_bool_decide.
    + by apply setTheme_synced.
  - destruct e as [tab| |i r|]; cbn [App.step]; try done.
    + by case_bool_decide.
    + by apply setTheme_same_elsewhere.
Qed.

End AppThemeProps.

(** X17: in every state of the page - whatever was clicked, toggled or
    loaded - the storage holds the name of the current theme under
    "theme", the document has the class "dark" exactly when the theme is
    dark, and every other key and class is as the page found it. *)
Theorem theme_stays_in_sync {rt : Runtime} (env : Env)
    (b : Theme.Browser) (events : list App.Event) :
  let p := App.provider (App.run env (App.mount b) events) in
  Theme.localStorage (Theme.browser p) !! "theme"
    = Some (Theme.name (Theme.theme p))
  ∧ ("dark" ∈ Theme.classList (Theme.browser p)
     ↔ Theme.theme p = Theme.dark)
  ∧ (∀ k, k ≠ "theme" →
       Theme.localStorage (Theme.browser p) !! k
       = Theme.localStorage b !! k)
  ∧ (∀ cls, cls ≠ "dark" →
       cls ∈ Theme.classList (Theme.browser p) ↔ cls ∈ Theme.classList b).
Proof.
  intros p.
  destruct (app_provider_ok env b (App.mount b) events
              (mount_synced b) (mount_same_elsewhere b))
    as [[Hst Hcl] [Hk Hc]].
  by split_and!.
Qed.

(** X18: in every state of the page a click on the theme button changes
    the theme, and a second click restores the theme, the storage and
    the class list exactly. *)
Theorem double_toggle_restores_theme {rt : Runtime} (env : Env)
    (b : Theme.Browser) (events : list App.Event) :
  let p := App.provider (App.run env (App.mount b) events) in
  Theme.theme (Theme.toggle p) ≠ Theme.theme p
  ∧ Theme.toggle (Theme.toggle p) = p.
Proof.
  intros p. split.
  - unfold Theme.toggle, Theme.setTheme.
    destruct (Theme.theme p) eqn:Hth; simpl; try case_decide; simpl;
      congruence.
  - apply toggle_twice.
    apply (app_provider_ok env b (App.mount b) events
             (mount_synced b) (mount_same_elsewhere b)).
Qed.

(** A visit: the stored dark theme is adopted, toggled to light, and the
    feed ends on the first page of "sports". *)
Example visit_scenario :
  let a := App.run (rt := Fragment.runtime) ∅ (App.mount Scenario.browser)
             Scenario.visit in
  Theme.theme (App.provider (App.mount Scenario.browser)) = Theme.dark
  ∧ Theme.theme (App.provider a) = Theme.light
  ∧ Theme.localStorage (Theme.browser (App.provider a)) !! "theme"
    = Some "light"
  ∧ Theme.localStorage (Theme.browser (App.provider a)) !! "visits"
    = Some "3"
  ∧ NewsFeed.thread (App.feed a) = Some "sports"
  ∧ Feed.page (NewsFeed.cells (App.feed a)) = 1
  ∧ Feed.items (NewsFeed.cells (App.feed a)) = []
  ∧ length (NewsFeed.loads (App.feed a)) = 5%nat.
Proof. vm_compute. by split_and!. Qed.
